(** * confucius: a shallow embedding of the configuration loader

    The development follows [confucius.go]: the Go library functions the
    loader calls ([strconv], [strings], [regexp], [reflect]) are modelled
    first, then the value coercer ([setValue], [setSlice]), the path
    formatter ([formatEnvKey]), the policy resolver ([processField],
    [processCfg]), the [${...}] substitution ([replaceEnvironments]) and
    the load orchestrator ([Load], [profileFileName]).

    Strings are byte strings ([string] of [ascii]); integers are [Z] with
    the wrap-around of the destination width written out. *)

From Stdlib Require Import ZArith String Ascii List Bool Lia.
From stdpp Require Import base option list gmap strings.

Local Open Scope string_scope.
Local Open Scope Z_scope.

(** ** Errors *)

(** The kinds of [reflect.Kind], in the order of the Go declaration. *)
Module reflect.
Inductive Kind :=
| Invalid | Bool | Int | Int8 | Int16 | Int32 | Int64
| Uint | Uint8 | Uint16 | Uint32 | Uint64 | Uintptr
| Float32 | Float64 | Complex64 | Complex128
| Array | Chan | Func | Interface | Map | Ptr | Slice | String | Struct
| UnsafePointer.
End reflect.

Inductive NumErr := ErrSyntax | ErrRange.

(** [error] values.  [Errorf format args] is [fmt.Errorf(format, args...)];
    an operand consumed by the verb [%w] is an [ArgW], so that unwrapping
    finds it.  [LibError] stands for the errors of the collaborators that
    are not part of the repository (time, os, yaml, json, toml, mergo,
    mapstructure); none of them is the sentinel. *)
Inductive error :=
| ErrFileNotFound
| NumError (Func Num : string) (Err : NumErr)
| LibError (pkg msg : string)
| Errorf (format : string) (args : list fmtarg)
with fmtarg :=
| ArgS (s : string)
| ArgV (e : error)
| ArgW (e : error)
| ArgKind (k : reflect.Kind).

Inductive result (A : Type) :=
| Ok (a : A)
| Err (e : error).
Arguments Ok {A} a.
Arguments Err {A} e.

(** [errors.Is(err, ErrFileNotFound)]: follows the [%w] chain. *)
Fixpoint errors_Is_ErrFileNotFound (e : error) : bool :=
  match e with
  | ErrFileNotFound => true
  | Errorf _ args =>
      existsb (fun a => match a with
                        | ArgW e' => errors_Is_ErrFileNotFound e'
                        | _ => false
                        end) args
  | _ => false
  end.

(** ** strconv *)

Definition is_digit (c : ascii) : bool :=
  ((48 <=? Z.of_nat (nat_of_ascii c)) && (Z.of_nat (nat_of_ascii c) <=? 57))%Z.

Definition digit_val (c : ascii) : Z := Z.of_nat (nat_of_ascii c) - 48.

Definition maxUint64 : Z := 2 ^ 64 - 1.

(** The digit loop of [strconv.ParseUint] for base 10: a byte that is not
    a decimal digit is a syntax error, an overflow of [maxVal] a range
    error, whichever comes first. *)
Fixpoint ParseUint_loop (maxVal n : Z) (s : string) : Z + NumErr :=
  match s with
  | EmptyString => inl n
  | String c s' =>
      if is_digit c then
        if (maxUint64 / 10 + 1 <=? n) then inr ErrRange
        else
          let n1 := n * 10 + digit_val c in
          if (maxVal <? n1) then inr ErrRange
          else ParseUint_loop maxVal n1 s'
      else inr ErrSyntax
  end.

(** [strconv.ParseUint(s, 10, bitSize)], as value and error kind; on a
    range error Go returns the maximal value next to the error. *)
Definition ParseUint_raw (s : string) (bitSize : Z) : Z * option NumErr :=
  match s with
  | EmptyString => (0, Some ErrSyntax)
  | _ =>
      let maxVal := 2 ^ bitSize - 1 in
      match ParseUint_loop maxVal 0 s with
      | inl n => (n, None)
      | inr ErrRange => (maxVal, Some ErrRange)
      | inr ErrSyntax => (0, Some ErrSyntax)
      end
  end.

Definition strconv_ParseUint (s : string) (bitSize : Z) : result Z :=
  match ParseUint_raw s bitSize with
  | (n, None) => Ok n
  | (_, Some k) => Err (NumError "ParseUint" s k)
  end.

(** [strconv.ParseInt(s, 10, bitSize)]. *)
Definition strconv_ParseInt (s0 : string) (bitSize : Z) : result Z :=
  match s0 with
  | EmptyString => Err (NumError "ParseInt" s0 ErrSyntax)
  | String c rest =>
      let '(neg, s) :=
        if Ascii.eqb c "+" then (false, rest)
        else if Ascii.eqb c "-" then (true, rest)
        else (false, s0) in
      match ParseUint_raw s bitSize with
      | (_, Some ErrSyntax) => Err (NumError "ParseInt" s0 ErrSyntax)
      | (un, _) =>
          let cutoff := 2 ^ (bitSize - 1) in
          if negb neg && (cutoff <=? un) then Err (NumError "ParseInt" s0 ErrRange)
          else if neg && (cutoff <? un) then Err (NumError "ParseInt" s0 ErrRange)
          else Ok (if neg then - un else un)
      end
  end.

Definition str_in (s : string) (l : list string) : bool :=
  existsb (String.eqb s) l.

(** [strconv.ParseBool]. *)
Definition strconv_ParseBool (str : string) : result bool :=
  if str_in str ["1"; "t"; "T"; "true"; "TRUE"; "True"] then Ok true
  else if str_in str ["0"; "f"; "F"; "false"; "FALSE"; "False"] then Ok false
  else Err (NumError "ParseBool" str ErrSyntax).

(** ** reflect: types and values

    A [reflect.Value] is a static type with a value of that type.  Only
    the structure [setValue] looks at is kept: the kind, whether the type
    is [time.Duration] or [time.Time], and the element type of pointers
    and slices. *)

Inductive IntKind := KInt | KInt8 | KInt16 | KInt32 | KInt64.
Inductive UintKind := KUint | KUint8 | KUint16 | KUint32 | KUint64.
Inductive FloatKind := KFloat32 | KFloat64.
Inductive OtherKind :=
| KInvalid | KUintptr | KComplex64 | KComplex128 | KArray | KChan | KFunc
| KInterface | KMap | KUnsafePointer.

Inductive type :=
| BoolT
| IntT (k : IntKind)        (* a signed integer type other than time.Duration *)
| DurationT                 (* time.Duration, of kind Int64 *)
| UintT (k : UintKind)
| FloatT (k : FloatKind)
| StringT
| TimeT                     (* time.Time, of kind Struct *)
| StructT                   (* any other struct type *)
| PtrT (elem : type)
| SliceT (elem : type)
| OtherT (k : OtherKind).

Definition Kind (t : type) : reflect.Kind :=
  match t with
  | BoolT => reflect.Bool
  | IntT KInt => reflect.Int
  | IntT KInt8 => reflect.Int8
  | IntT KInt16 => reflect.Int16
  | IntT KInt32 => reflect.Int32
  | IntT KInt64 => reflect.Int64
  | DurationT => reflect.Int64
  | UintT KUint => reflect.Uint
  | UintT KUint8 => reflect.Uint8
  | UintT KUint16 => reflect.Uint16
  | UintT KUint32 => reflect.Uint32
  | UintT KUint64 => reflect.Uint64
  | FloatT KFloat32 => reflect.Float32
  | FloatT KFloat64 => reflect.Float64
  | StringT => reflect.String
  | TimeT => reflect.Struct
  | StructT => reflect.Struct
  | PtrT _ => reflect.Ptr
  | SliceT _ => reflect.Slice
  | OtherT KInvalid => reflect.Invalid
  | OtherT KUintptr => reflect.Uintptr
  | OtherT KComplex64 => reflect.Complex64
  | OtherT KComplex128 => reflect.Complex128
  | OtherT KArray => reflect.Array
  | OtherT KChan => reflect.Chan
  | OtherT KFunc => reflect.Func
  | OtherT KInterface => reflect.Interface
  | OtherT KMap => reflect.Map
  | OtherT KUnsafePointer => reflect.UnsafePointer
  end.

(** The values of a type.  Integers are [Z] in the range of their width;
    a float is its IEEE bit pattern; a [time.Time] is an instant counted
    from the zero instant; the contents of structs and of the kinds the
    coercer rejects are opaque.  A nil pointer is [None]; slices are
    lists (nil and empty are not told apart). *)
Fixpoint denote (t : type) : Type :=
  match t with
  | BoolT => bool
  | IntT _ | DurationT | UintT _ | FloatT _ | TimeT | StructT | OtherT _ => Z
  | StringT => string
  | PtrT elem => option (denote elem)
  | SliceT elem => list (denote elem)
  end.

(** [reflect.Zero]. *)
Definition Zero (t : type) : denote t :=
  match t return denote t with
  | BoolT => false
  | IntT _ | DurationT | UintT _ | FloatT _ | TimeT | StructT | OtherT _ => 0
  | StringT => EmptyString
  | PtrT _ => None
  | SliceT _ => []
  end.

(** Width in bits; [int] and [uint] are those of a 64-bit platform. *)
Definition IntBits (k : IntKind) : Z :=
  match k with KInt => 64 | KInt8 => 8 | KInt16 => 16 | KInt32 => 32 | KInt64 => 64 end.

Definition UintBits (k : UintKind) : Z :=
  match k with KUint => 64 | KUint8 => 8 | KUint16 => 16 | KUint32 => 32 | KUint64 => 64 end.

(** The conversions [intN(x)] of an [int64] and [uintN(x)] of a [uint64]
    that [reflect.Value.SetInt] and [SetUint] perform: the low bits are
    kept. *)
Definition wrap_signed (bits x : Z) : Z :=
  (x + 2 ^ (bits - 1)) mod 2 ^ bits - 2 ^ (bits - 1).

Definition wrap_unsigned (bits x : Z) : Z := x mod 2 ^ bits.

Definition SetInt (k : IntKind) (x : Z) : denote (IntT k) := wrap_signed (IntBits k) x.
Definition SetUint (k : UintKind) (x : Z) : denote (UintT k) := wrap_unsigned (UintBits k) x.

(** The library functions that are taken as given: float and time
    parsing, and the narrowing [float32(x)]. *)
Record GoLib := {
  strconv_ParseFloat : string -> Z -> result Z;
  float32_of : Z -> Z;
  time_ParseDuration : string -> result Z;
  time_Parse : string -> string -> result Z;
  unicode_ToUpper : string -> string;
}.

Definition SetFloat (lib : GoLib) (k : FloatKind) (x : Z) : denote (FloatT k) :=
  match k with KFloat32 => float32_of lib x | KFloat64 => x end.

(** ** The loader's configuration *)

Record confucius := {
  useEnv : bool;
  useReader : bool;
  dirs : list string;
  profiles : list string;
  filename : string;
  tag : string;
  timeLayout : string;
  envPrefix : string;
  profileLayout : string;
  readerConfig : string;
  readerDecoder : string;
}.

Definition DefaultFilename := "config.yaml".
Definition DefaultDir := ".".
Definition DefaultTag := "conf".
Definition DefaultTimeLayout := "2006-01-02T15:04:05Z07:00".
Definition DefaultProfileLayout := "config.test.yaml".

Definition defaultConfucius : confucius := {|
  useEnv := false;
  useReader := false;
  dirs := [DefaultDir];
  profiles := [];
  filename := DefaultFilename;
  tag := DefaultTag;
  timeLayout := DefaultTimeLayout;
  envPrefix := EmptyString;
  profileLayout := DefaultProfileLayout;
  readerConfig := EmptyString;
  readerDecoder := EmptyString;
|}.

(** ** The value coercer *)

Section Coercer.

Variable lib : GoLib.

(** [stringSlice] is defined in another file of the package; the coercer
    is stated for any such function. *)
Variable stringSlice : string -> list string.

(** The loop of [setSlice]: element [i] of the fresh slice is set from
    [ss[i]]; the first failure ends the loop. *)
Fixpoint setSlice_loop {A : Type} (set : A -> string -> A * option error)
    (zero : A) (ss : list string) : result (list A) :=
  match ss with
  | [] => Ok []
  | s :: rest =>
      match set zero s with
      | (_, Some e) => Err e
      | (x, None) =>
          match setSlice_loop set zero rest with
          | Ok l => Ok (x :: l)
          | Err e => Err e
          end
      end
  end.

(** [setValue c fv val]: the destination after the call, and the error
    returned.  The destination is threaded explicitly because the Go
    code writes through [fv] before it knows whether it will succeed. *)
Fixpoint setValue (c : confucius) (t : type) : denote t -> string -> denote t * option error :=
  match t return denote t -> string -> denote t * option error with
  | PtrT elem => fun fv val =>
      (* if fv.IsNil() { fv.Set(reflect.New(fv.Type().Elem())) } *)
      let pointee := match fv with None => Zero elem | Some x => x end in
      let '(x, err) := setValue c elem pointee val in
      (Some x, err)
  | SliceT elem => fun fv val =>
      (* setSlice *)
      match setSlice_loop (setValue c elem) (Zero elem) (stringSlice val) with
      | Err e => (fv, Some e)
      | Ok slice => (slice, None)
      end
  | BoolT => fun fv val =>
      match strconv_ParseBool val with
      | Err e => (fv, Some e)
      | Ok b => (b, None)
      end
  | IntT k => fun fv val =>
      match strconv_ParseInt val 64 with
      | Err e => (fv, Some e)
      | Ok i => (SetInt k i, None)
      end
  | DurationT => fun fv val =>
      match time_ParseDuration lib val with
      | Err e => (fv, Some e)
      | Ok d => (d, None)
      end
  | UintT k => fun fv val =>
      match strconv_ParseUint val 64 with
      | Err e => (fv, Some e)
      | Ok i => (SetUint k i, None)
      end
  | FloatT k => fun fv val =>
      match strconv_ParseFloat lib val 64 with
      | Err e => (fv, Some e)
      | Ok f => (SetFloat lib k f, None)
      end
  | StringT => fun fv val => (val, None)
  | TimeT => fun fv val =>
      match time_Parse lib (timeLayout c) val with
      | Err e => (fv, Some e)
      | Ok t => (t, None)
      end
  | StructT => fun fv val =>
      (fv, Some (Errorf "unsupported type %s" [ArgKind reflect.Struct]))
  | OtherT k => fun fv val =>
      (fv, Some (Errorf "unsupported type %s" [ArgKind (Kind (OtherT k))]))
  end.

(** [setSlice c sv val]. *)
Definition setSlice (c : confucius) (elem : type) (sv : denote (SliceT elem)) (val : string)
    : denote (SliceT elem) * option error :=
  let ss := stringSlice val in
  match setSlice_loop (setValue c elem) (Zero elem) ss with
  | Err e => (sv, Some e)
  | Ok slice => (slice, None)
  end.

(** [setDefaultValue c fv val]. *)
Definition setDefaultValue (c : confucius) (t : type) (fv : denote t) (val : string)
    : denote t * option error :=
  match Kind t with
  | reflect.Bool => (fv, Some (Errorf "unsupported type: %v" [ArgKind (Kind t)]))
  | _ => setValue c t fv val
  end.

End Coercer.

(** ** strings, regexp, os *)

(** [strings.NewReplacer(old1, new1, ...).Replace(s)] when every old
    string is one byte, which is how [formatEnvKey] uses it: each byte is
    looked up in the pairs, the first pair in argument order winning. *)
Fixpoint replacer_lookup (pairs : list (ascii * string)) (c : ascii) : option string :=
  match pairs with
  | [] => None
  | (old, new) :: rest => if Ascii.eqb c old then Some new else replacer_lookup rest c
  end.

Fixpoint Replacer_Replace (pairs : list (ascii * string)) (s : string) : string :=
  match s with
  | EmptyString => EmptyString
  | String c s' =>
      match replacer_lookup pairs c with
      | Some new => new +:+ Replacer_Replace pairs s'
      | None => String c (Replacer_Replace pairs s')
      end
  end.

Definition is_ascii_lower (c : ascii) : bool :=
  ((97 <=? Z.of_nat (nat_of_ascii c)) && (Z.of_nat (nat_of_ascii c) <=? 122))%Z.

Definition upper_byte (c : ascii) : ascii :=
  if is_ascii_lower c then ascii_of_nat (nat_of_ascii c - 32) else c.

Fixpoint isASCII (s : string) : bool :=
  match s with
  | EmptyString => true
  | String c s' => (Z.of_nat (nat_of_ascii c) <? 128) && isASCII s'
  end.

Fixpoint map_bytes (f : ascii -> ascii) (s : string) : string :=
  match s with
  | EmptyString => EmptyString
  | String c s' => String (f c) (map_bytes f s')
  end.

(** [strings.ToUpper]: the byte loop on a string of ASCII bytes, the
    Unicode mapping otherwise. *)
Definition strings_ToUpper (lib : GoLib) (s : string) : string :=
  if isASCII s then map_bytes upper_byte s else unicode_ToUpper lib s.

(** [strings.ReplaceAll(s, old, new)] for a non-empty [old], which is what
    every call site passes: the occurrences of [old] are taken from the
    left and do not overlap.  [skip] counts the bytes of a replaced
    occurrence still to be passed over. *)
Fixpoint ReplaceAll_from (skip : nat) (s old new : string) : string :=
  match s with
  | EmptyString => EmptyString
  | String c s' =>
      match skip with
      | S k => ReplaceAll_from k s' old new
      | O =>
          if String.prefix old s
          then new +:+ ReplaceAll_from (String.length old - 1) s' old new
          else String c (ReplaceAll_from O s' old new)
      end
  end.

Definition strings_ReplaceAll (s old new : string) : string :=
  ReplaceAll_from O s old new.

(** [strings.Split(s, sep)] for a one-byte separator. *)
Fixpoint strings_Split (s : string) (sep : ascii) : list string :=
  match s with
  | EmptyString => [EmptyString]
  | String c s' =>
      if Ascii.eqb c sep then EmptyString :: strings_Split s' sep
      else
        match strings_Split s' sep with
        | h :: t => String c h :: t
        | [] => [String c EmptyString]
        end
  end.

Definition newline : ascii := ascii_of_nat 10.

(** The regular expression [\$\{(.*?|)\}].  After [${] the group takes
    the bytes up to the first [}]; [.] does not match a newline, so there
    is no match when one comes first. *)
Fixpoint match_group (s : string) : option string :=
  match s with
  | EmptyString => None
  | String c s' =>
      if Ascii.eqb c "}" then Some EmptyString
      else if Ascii.eqb c newline then None
      else option_map (String c) (match_group s')
  end.

Definition match_at (s : string) : option string :=
  match s with
  | String c1 (String c2 rest) =>
      if Ascii.eqb c1 "$" && Ascii.eqb c2 "{" then match_group rest else None
  | _ => None
  end.

Definition token (value : string) : string := "${" +:+ value +:+ "}".

(** [re.FindAllStringSubmatch(str, -1)]: the successive matches from the
    left, each as the pair of [match[0]] and [match[1]]; the search
    resumes after the end of a match. *)
Fixpoint FindAll_from (skip : nat) (s : string) : list (string * string) :=
  match s with
  | EmptyString => []
  | String c s' =>
      match skip with
      | S k => FindAll_from k s'
      | O =>
          match match_at s with
          | Some value => (token value, value) :: FindAll_from (String.length value + 2) s'
          | None => FindAll_from O s'
          end
      end
  end.

Definition FindAllStringSubmatch (str : string) : list (string * string) :=
  FindAll_from O str.

(** The process environment; [os.LookupEnv] of the empty name finds
    nothing. *)
Definition os_LookupEnv (env : gmap string string) (key : string) : option string :=
  if String.eqb key EmptyString then None else env !! key.

(** ** The [${...}] substitution *)

Fixpoint replaceEnvironments_loop (env : gmap string string)
    (matches : list (string * string)) (result : string) : string * option error :=
  match matches with
  | [] => (result, None)
  | (whole, value) :: rest =>
      if String.eqb value EmptyString
      then (result, Some (Errorf "environment name is missing" []))
      else
        let s := strings_Split value ":" in
        let envName := hd EmptyString s in
        match os_LookupEnv env envName with
        | Some envValue =>
            replaceEnvironments_loop env rest (strings_ReplaceAll result whole envValue)
        | None =>
            let defaultVal := match s with _ :: d :: _ => d | _ => EmptyString end in
            replaceEnvironments_loop env rest (strings_ReplaceAll result whole defaultVal)
        end
  end.

Definition replaceEnvironments (env : gmap string string) (str : string)
    : string * option error :=
  replaceEnvironments_loop env (FindAllStringSubmatch str) str.

(** ** The path formatter *)

Definition formatEnvKey (lib : GoLib) (c : confucius) (key : string) : string :=
  let key := Replacer_Replace [("."%char, "_"); ("["%char, "_"); ("]"%char, EmptyString)] key in
  let key := if String.eqb (envPrefix c) EmptyString then key
             else envPrefix c +:+ "_" +:+ key in
  strings_ToUpper lib key.

(** ** The policy resolver *)

(** Modelled from the spec: the type [field] (the leaf descriptor) and
    its method [path()], which are declared in another file of the
    package.  The record has what [processField] reads.  The Go [field]
    holds the settable [reflect.Value] of the leaf; here the leaf carries
    the type [t] and the current contents [v] of that storage, and a call
    that writes through the handle returns the leaf with new contents. *)
Record field := {
  t : type;
  v : denote t;
  path : string;
  required : bool;
  setDefault : bool;
  defaultVal : string;
}.

Definition with_v (f : field) (x : denote (t f)) : field := {|
  t := t f;
  v := x;
  path := path f;
  required := required f;
  setDefault := setDefault f;
  defaultVal := defaultVal f;
|}.

(** [fieldErrors]: a map from path to error. *)
Abbreviation fieldErrors := (gmap string error).

Section Policy.

Variable lib : GoLib.
Variable stringSlice : string -> list string.

(** [isZero] is defined in another file of the package; the resolver is
    stated for any such function. *)
Variable isZero : forall t : type, denote t -> bool.

Variable env : gmap string string.

(** [setFromEnv c fv key]. *)
Definition setFromEnv (c : confucius) (t : type) (fv : denote t) (key : string)
    : denote t * option error :=
  let key := formatEnvKey lib c key in
  match os_LookupEnv env key with
  | Some val => setValue lib stringSlice c t fv val
  | None => (fv, None)
  end.

(** The contents of the leaf after the second step of [processField]
    (the overlay of the environment when it is in use) and the error
    of that step. *)
Definition envOverlay (c : confucius) (f : field) : denote (t f) * option error :=
  if useEnv c then setFromEnv c (t f) (v f) (path f) else (v f, None).

(** [processField c field]. *)
Definition processField (c : confucius) (f : field) : field * option error :=
  if required f && setDefault f then
    (f, Some (Errorf "field cannot have both a required validation and a default value" []))
  else
    match envOverlay c f with
    | (v1, Some err) => (with_v f v1, Some (Errorf "unable to set from env: %v" [ArgV err]))
    | (v1, None) =>
        if required f && isZero (t f) v1 then
          (with_v f v1, Some (Errorf "required validation failed" []))
        else if setDefault f && isZero (t f) v1 then
          match setDefaultValue lib stringSlice c (t f) v1 (defaultVal f) with
          | (v2, Some err) =>
              (with_v f v2, Some (Errorf "unable to set default: %v" [ArgV err]))
          | (v2, None) => (with_v f v2, None)
          end
        else (with_v f v1, None)
    end.

(** The loop of [processCfg] over the flattened fields. *)
Fixpoint processFields (c : confucius) (fields : list field) (errs : fieldErrors)
    : list field * fieldErrors :=
  match fields with
  | [] => ([], errs)
  | f :: rest =>
      let '(f', err) := processField c f in
      let errs := match err with
                  | Some e => <[path f := e]> errs
                  | None => errs
                  end in
      let '(rest', errs) := processFields c rest errs in
      (f' :: rest', errs)
  end.

(** [processCfg c cfg], on the fields [flattenCfg(cfg, c.tag)] gives:
    the leaves after processing and the returned error. *)
Definition processCfg (c : confucius) (fields : list field)
    : list field * option fieldErrors :=
  let '(fields', errs) := processFields c fields ∅ in
  if (0 <? size errs)%nat then (fields', Some errs) else (fields', None).

End Policy.

(** ** The load orchestrator *)

(** What a call yields: a value, or a run-time panic that ends the
    program. *)
Inductive go (A : Type) :=
| Ret (a : A)
| Panic (msg : string).
Arguments Ret {A} a.
Arguments Panic {A} msg.

(** [filepath.Ext]: the suffix of the last path element from its last
    dot on, empty when that element has no dot. *)
Fixpoint has_separator (s : string) : bool :=
  match s with
  | EmptyString => false
  | String c s' => Ascii.eqb c "/" || has_separator s'
  end.

Fixpoint filepath_Ext (p : string) : string :=
  match p with
  | EmptyString => EmptyString
  | String c rest =>
      match filepath_Ext rest with
      | EmptyString =>
          if Ascii.eqb c "." && negb (has_separator rest) then p else EmptyString
      | ext => ext
      end
  end.

(** The collaborators of [Load]: the file system, the decoders of the
    three formats, the merge and the typed decode, and the helpers that
    are defined in other files of the package ([isStructPtr],
    [fileExists], [flattenCfg]).  [Cfg] is the value passed to [Load],
    [tree] is [map[string]interface{}] and [nil_map] its nil value. *)
Record World := {
  Cfg : Type;
  tree : Type;
  nil_map : tree;
  isStructPtr : Cfg -> bool;
  fileExists : string -> bool;
  flattenCfg : Cfg -> string -> list field;
  filepath_Join : string -> string -> string;
  os_Open : string -> result string;
  yaml_Decode : string -> result tree;
  json_Decode : string -> result tree;
  toml_LoadReader : string -> result tree;
  mergo_Merge : tree -> tree -> result tree;
  mapstructure_Decode :
    (string -> string * option error) -> string -> string -> tree -> Cfg -> result Cfg;
}.

(** [profileFileName c profile]; indexing [parts] out of range panics. *)
Definition profileFileName (c : confucius) (profile : string) : go string :=
  let filename_ := profileLayout c in
  let parts := strings_Split (filename c) "." in
  match nth_error parts 0 with
  | None => Panic "index out of range [0]"
  | Some part0 =>
      let filename_ := strings_ReplaceAll filename_ "config" part0 in
      let filename_ := strings_ReplaceAll filename_ "test" profile in
      match nth_error parts 1 with
      | None => Panic "index out of range [1]"
      | Some part1 => Ret (strings_ReplaceAll filename_ "yaml" part1)
      end
  end.

Section Orchestrator.

Variable lib : GoLib.
Variable stringSlice : string -> list string.
Variable isZero : forall t : type, denote t -> bool.
Variable env : gmap string string.
Variable W : World.

(** The search loop shared by [findCfgFile] and [findProfileCfgFile]. *)
Fixpoint findInDirs (ds : list string) (file : string) : option string :=
  match ds with
  | [] => None
  | dir :: rest =>
      let p := filepath_Join W dir file in
      if fileExists W p then Some p else findInDirs rest file
  end.

Definition fileNotFound (file : string) : error :=
  Errorf "%s: %w" [ArgS file; ArgW ErrFileNotFound].

(** [findCfgFile]. *)
Definition findCfgFile (c : confucius) : string * option error :=
  match findInDirs (dirs c) (filename c) with
  | Some p => (p, None)
  | None => (EmptyString, Some (fileNotFound (filename c)))
  end.

(** [findProfileCfgFile]. *)
Definition findProfileCfgFile (c : confucius) (profile : string)
    : go (string * option error) :=
  match profileFileName c profile with
  | Panic msg => Panic msg
  | Ret file =>
      match findInDirs (dirs c) file with
      | Some p => Ret (p, None)
      | None => Ret (EmptyString, Some (fileNotFound file))
      end
  end.

(** [decodeReader]. *)
Definition decodeReader (c : confucius) (reader : string) (decoder : string)
    : tree W * option error :=
  if str_in decoder [".yaml"; ".yml"] then
    match yaml_Decode W reader with
    | Err e => (nil_map W, Some e)
    | Ok vals => (vals, None)
    end
  else if String.eqb decoder ".json" then
    match json_Decode W reader with
    | Err e => (nil_map W, Some e)
    | Ok vals => (vals, None)
    end
  else if String.eqb decoder ".toml" then
    match toml_LoadReader W reader with
    | Err e => (nil_map W, Some e)
    | Ok vals => (vals, None)
    end
  else
    (nil_map W,
     Some (Errorf "unsupported file extension %s" [ArgS (filepath_Ext (filename c))])).

(** [decodeFile]. *)
Definition decodeFile (c : confucius) (file : string) : tree W * option error :=
  match os_Open W file with
  | Err e => (nil_map W, Some e)
  | Ok fd => decodeReader c fd (filepath_Ext file)
  end.

(** [decodeMap]: the typed decode, given the hook that substitutes
    the environment in strings. *)
Definition decodeMap (c : confucius) (m : tree W) (cfg : Cfg W) : result (Cfg W) :=
  mapstructure_Decode W (replaceEnvironments env) (tag c) (timeLayout c) m cfg.

(** What [Load] yields: [nil] with the leaves as they are after
    processing, an error, the aggregated field errors (with the leaves
    as processing left them), or a panic. *)
Inductive outcome :=
| Loaded (leaves : list field)
| Failed (err : error)
| FailedFields (leaves : list field) (errs : fieldErrors)
| Aborted (msg : string).

(** The tail of [Load]: the typed decode and [processCfg]. *)
Definition Load_finish (c : confucius) (vals : tree W) (cfg : Cfg W) : outcome :=
  match decodeMap c vals cfg with
  | Err e => Failed e
  | Ok cfg' =>
      match processCfg lib stringSlice isZero env c (flattenCfg W cfg' (tag c)) with
      | (leaves, Some errs) => FailedFields leaves errs
      | (leaves, None) => Loaded leaves
      end
  end.

(** The loop of [Load] over the profiles. *)
Fixpoint Load_profiles (c : confucius) (ps : list string) (vals : tree W) (cfg : Cfg W)
    : outcome :=
  match ps with
  | [] => Load_finish c vals cfg
  | profile :: rest =>
      match findProfileCfgFile c profile with
      | Panic msg => Aborted msg
      | Ret (_, Some err) => Failed err
      | Ret (profileFile, None) =>
          match decodeFile c profileFile with
          | (_, Some err) => Failed (Errorf "%v, filename: %s" [ArgV err; ArgS profileFile])
          | (profileVals, None) =>
              match mergo_Merge W vals profileVals with
              | Err e => Failed e
              | Ok vals' => Load_profiles c rest vals' cfg
              end
          end
      end
  end.

(** The guard [if !c.useReader && err != nil { return err }]: the error
    that is returned, if any. *)
Definition unless_reader (c : confucius) (err : option error) : option error :=
  if negb (useReader c) then err else None.

(** [Load]. *)
Definition Load (c : confucius) (cfg : Cfg W) : outcome :=
  if negb (isStructPtr W cfg) then Failed (Errorf "cfg must be a pointer to a struct" [])
  else
    let '(file, err) := findCfgFile c in
    match unless_reader c err with
    | Some e => Failed e
    | None =>
        let '(vals, err) := decodeFile c file in
        match unless_reader c err with
        | Some e => Failed e
        | None =>
            if useReader c then
              match decodeReader c (readerConfig c) (readerDecoder c) with
              | (_, Some e) => Failed e
              | (readerVals, None) =>
                  match mergo_Merge W readerVals vals with
                  | Err e => Failed e
                  | Ok readerVals' => Load_profiles c (profiles c) readerVals' cfg
                  end
              end
            else Load_profiles c (profiles c) vals cfg
        end
    end.

End Orchestrator.

(** ** Helpers of the repository modelled from the documentation *)

Definition is_space (c : ascii) : bool :=
  let n := Z.of_nat (nat_of_ascii c) in
  (n =? 32) || ((9 <=? n) && (n <=? 13)).

Fixpoint trim_left (s : string) : string :=
  match s with
  | String c s' => if is_space c then trim_left s' else s
  | EmptyString => EmptyString
  end.

Fixpoint trim_right (s : string) : string :=
  match s with
  | EmptyString => EmptyString
  | String c s' =>
      match trim_right s' with
      | EmptyString => if is_space c then EmptyString else String c EmptyString
      | r => String c r
      end
  end.

Definition trim_prefix_byte (c : ascii) (s : string) : string :=
  match s with
  | String c' s' => if Ascii.eqb c c' then s' else s
  | EmptyString => EmptyString
  end.

Fixpoint trim_suffix_byte (c : ascii) (s : string) : string :=
  match s with
  | EmptyString => EmptyString
  | String c' EmptyString => if Ascii.eqb c c' then EmptyString else s
  | String c' s' => String c' (trim_suffix_byte c s')
  end.

(** Modelled from the spec: [stringSlice], which is defined in another
    file of the package.  The literal may be enclosed in [[ ]]; the
    elements are separated by commas and trimmed of surrounding white
    space; an empty element is kept. *)
Definition stringSlice_spec (s : string) : list string :=
  map (fun e => trim_right (trim_left e))
      (strings_Split (trim_suffix_byte "]" (trim_prefix_byte "[" s)) ",").

(** Modelled from the spec: [isZero], which is defined in another file
    of the package.  A basic type is zero when it equals its zero value,
    a slice when it is empty, a pointer when it is nil or points to a
    zero value, a [time.Time] when it is the zero instant; a struct is
    never zero. *)
Fixpoint isZero_spec (t : type) : denote t -> bool :=
  match t return denote t -> bool with
  | BoolT => fun x => negb x
  | IntT _ | DurationT | UintT _ | TimeT | OtherT _ => fun x => x =? 0
  | FloatT KFloat32 => fun x => (x =? 0) || (x =? 2 ^ 31)
  | FloatT KFloat64 => fun x => (x =? 0) || (x =? 2 ^ 63)
  | StringT => fun x => String.eqb x EmptyString
  | StructT => fun _ => false
  | PtrT elem => fun x => match x with None => true | Some y => isZero_spec elem y end
  | SliceT _ => fun x => match x with [] => true | _ => false end
  end.

(** ** Notions used in the statements *)

(** The destination after a failed [setValue]: the nil pointers on the
    way to the pointee have been allocated, nothing else has changed. *)
Fixpoint allocated (t : type) : denote t -> denote t :=
  match t return denote t -> denote t with
  | PtrT elem => fun fv =>
      Some (allocated elem (match fv with None => Zero elem | Some x => x end))
  | _ => fun fv => fv
  end.

(** No nil pointer on the way to the pointee. *)
Fixpoint no_nil (t : type) : denote t -> bool :=
  match t return denote t -> bool with
  | PtrT elem => fun fv => match fv with None => false | Some x => no_nil elem x end
  | _ => fun _ => true
  end.

(** The path formatter in the words of the specification: three passes
    over the path, the prefix joined by an underscore, the whole in upper
    case. *)
Fixpoint replace_byte (old : ascii) (new : string) (s : string) : string :=
  match s with
  | EmptyString => EmptyString
  | String c s' =>
      if Ascii.eqb c old then new +:+ replace_byte old new s'
      else String c (replace_byte old new s')
  end.

Definition normalize_path (p : string) : string :=
  replace_byte "]" EmptyString (replace_byte "[" "_" (replace_byte "." "_" p)).

Definition join_prefix (prefix key : string) : string :=
  match prefix with
  | EmptyString => key
  | _ => prefix +:+ "_" +:+ key
  end.

Fixpoint has_byte (c : ascii) (s : string) : bool :=
  match s with
  | EmptyString => false
  | String c' s' => Ascii.eqb c' c || has_byte c s'
  end.

(** A library whose float and time parsers reject every literal: enough
    to run the coercer on booleans, integers, strings, pointers and
    slices of them. *)
Definition lib_reject : GoLib := {|
  strconv_ParseFloat := fun s _ => Err (NumError "ParseFloat" s ErrSyntax);
  float32_of := fun x => x;
  time_ParseDuration := fun s => Err (LibError "time" "invalid duration");
  time_Parse := fun _ _ => Err (LibError "time" "cannot parse");
  unicode_ToUpper := fun s => s;
|}.

(** A world without files, whose destination is the list of its leaves
    and whose trees carry nothing. *)
Definition world_empty : World := {|
  Cfg := list field;
  tree := unit;
  nil_map := tt;
  isStructPtr := fun _ => true;
  fileExists := fun _ => false;
  flattenCfg := fun cfg _ => cfg;
  filepath_Join := fun dir file => dir +:+ "/" +:+ file;
  os_Open := fun _ => Err (LibError "os" "no such file or directory");
  yaml_Decode := fun _ => Ok tt;
  json_Decode := fun _ => Ok tt;
  toml_LoadReader := fun _ => Ok tt;
  mergo_Merge := fun dst _ => Ok dst;
  mapstructure_Decode := fun _ _ _ _ cfg => Ok cfg;
|}.

(** Configurations used in the examples: the defaults with the
    environment in use under a prefix, with another file name, with
    profiles, with an in-memory reader. *)
Definition with_env (prefix : string) (c : confucius) : confucius := {|
  useEnv := true;
  useReader := useReader c;
  dirs := dirs c;
  profiles := profiles c;
  filename := filename c;
  tag := tag c;
  timeLayout := timeLayout c;
  envPrefix := prefix;
  profileLayout := profileLayout c;
  readerConfig := readerConfig c;
  readerDecoder := readerDecoder c;
|}.

Definition with_file (name : string) (ps : list string) (c : confucius) : confucius := {|
  useEnv := useEnv c;
  useReader := useReader c;
  dirs := dirs c;
  profiles := ps;
  filename := name;
  tag := tag c;
  timeLayout := timeLayout c;
  envPrefix := envPrefix c;
  profileLayout := profileLayout c;
  readerConfig := readerConfig c;
  readerDecoder := readerDecoder c;
|}.

Definition with_reader (content decoder : string) (c : confucius) : confucius := {|
  useEnv := useEnv c;
  useReader := true;
  dirs := dirs c;
  profiles := profiles c;
  filename := filename c;
  tag := tag c;
  timeLayout := timeLayout c;
  envPrefix := envPrefix c;
  profileLayout := profileLayout c;
  readerConfig := content;
  readerDecoder := decoder;
|}.

(** The collaborators never return the file-not-found sentinel, which
    is a value of this package. *)
Definition World_sentinel_free (env : gmap string string) (W : World) : Prop :=
  (forall p e, os_Open W p = Err e -> errors_Is_ErrFileNotFound e = false)
  /\ (forall r e, yaml_Decode W r = Err e -> errors_Is_ErrFileNotFound e = false)
  /\ (forall r e, json_Decode W r = Err e -> errors_Is_ErrFileNotFound e = false)
  /\ (forall r e, toml_LoadReader W r = Err e -> errors_Is_ErrFileNotFound e = false)
  /\ (forall a b e, mergo_Merge W a b = Err e -> errors_Is_ErrFileNotFound e = false)
  /\ (forall tg tl m cfg e,
        mapstructure_Decode W (replaceEnvironments env) tg tl m cfg = Err e ->
        errors_Is_ErrFileNotFound e = false).

(** The input of the substitution as text and tokens. *)
Inductive piece :=
| Lit (s : string)
| Tok (body : string).

Definition render_piece (p : piece) : string :=
  match p with
  | Lit s => s
  | Tok body => token body
  end.

Fixpoint render (ps : list piece) : string :=
  match ps with
  | [] => EmptyString
  | p :: rest => render_piece p +:+ render rest
  end.

(** What the loop of [replaceEnvironments] puts in the place of a token:
    the value of the variable named before the first colon, else the text
    between the first and the second colon, else nothing. *)
Definition token_value (env : gmap string string) (body : string) : string :=
  let s := strings_Split body ":" in
  match os_LookupEnv env (hd EmptyString s) with
  | Some envValue => envValue
  | None => match s with _ :: d :: _ => d | _ => EmptyString end
  end.

Fixpoint substituted (env : gmap string string) (ps : list piece) : string :=
  match ps with
  | [] => EmptyString
  | Lit s :: rest => s +:+ substituted env rest
  | Tok body :: rest => token_value env body +:+ substituted env rest
  end.

(** Text in which no token can start: no dollar of it is followed by an
    opening brace, and it does not end with a dollar (which the next
    piece could complete). *)
Fixpoint no_token_start (s : string) : bool :=
  match s with
  | EmptyString => true
  | String c s' =>
      negb (Ascii.eqb c "$"
            && match s' with
               | EmptyString => true
               | String c' _ => Ascii.eqb c' "{"
               end)
      && no_token_start s'
  end.

(** Text in which no token can start; a token whose body is not empty,
    has no closing brace or newline and no start of a token, and whose
    value is text in which no token can start. *)
Definition piece_ok (env : gmap string string) (p : piece) : bool :=
  match p with
  | Lit s => no_token_start s
  | Tok body =>
      negb (String.eqb body EmptyString)
      && no_token_start (body +:+ "}")
      && negb (has_byte "}" body)
      && negb (has_byte newline body)
      && no_token_start (token_value env body)
  end.

(** One pass of the loop seen on the pieces: the tokens of that body
    become text. *)
Definition resolve_token (body val : string) (p : piece) : piece :=
  match p with
  | Tok b => if String.eqb b body then Lit val else p
  | Lit _ => p
  end.

Fixpoint bodies (ps : list piece) : list string :=
  match ps with
  | [] => []
  | Lit _ :: rest => bodies rest
  | Tok b :: rest => b :: bodies rest
  end.

(** The shape the pieces keep along the loop. *)
Definition piece_reg (p : piece) : bool :=
  match p with
  | Lit s => no_token_start s
  | Tok body =>
      no_token_start (body +:+ "}") && negb (has_byte "}" body)
      && negb (has_byte newline body)
  end.

(** The pieces once the tokens of the bodies [bs] have been passed. *)
Definition resolved (env : gmap string string) (bs : list string) (p : piece) : piece :=
  match p with
  | Tok b => if existsb (String.eqb b) bs then Lit (token_value env b) else p
  | Lit _ => p
  end.

(** ** Notions used in the further properties *)

(** The number a string of decimal digits denotes; [None] when the
    string is empty or has another byte. *)
Fixpoint digits_value (acc : Z) (s : string) : option Z :=
  match s with
  | EmptyString => Some acc
  | String c s' =>
      if is_digit c then digits_value (acc * 10 + digit_val c) s' else None
  end.

Definition decimal_value (s : string) : option Z :=
  match s with
  | EmptyString => None
  | _ => digits_value 0 s
  end.

(** A literal without its leading sign, and whether the sign is a
    minus. *)
Definition split_sign (s : string) : bool * string :=
  match s with
  | String c rest =>
      if Ascii.eqb c "+" then (false, rest)
      else if Ascii.eqb c "-" then (true, rest)
      else (false, s)
  | EmptyString => (false, s)
  end.

(** [old] occurs in [s]. *)
Fixpoint occurs (old s : string) : bool :=
  match s with
  | EmptyString => String.prefix old EmptyString
  | String c s' => String.prefix old s || occurs old s'
  end.

(** The type at the end of the pointers is one [setValue] rejects. *)
Fixpoint base_unsupported (t : type) : bool :=
  match t with
  | PtrT elem => base_unsupported elem
  | StructT | OtherT _ => true
  | _ => false
  end.

(** What [Load] has returned is a success. *)
Definition is_loaded (o : outcome) : bool :=
  match o with
  | Loaded _ => true
  | _ => false
  end.

(** ** Notions used to follow a leaf through [Load] *)

(** The loop of [Load] over the profiles up to the typed decode: the
    values once every profile is merged, or the error or the panic that
    ends the loop. *)
Fixpoint profile_values (W : World) (c : confucius) (ps : list string) (vals : tree W)
    : go (result (tree W)) :=
  match ps with
  | [] => Ret (Ok vals)
  | profile :: rest =>
      match findProfileCfgFile W c profile with
      | Panic msg => Panic msg
      | Ret (_, Some err) => Ret (Err err)
      | Ret (profileFile, None) =>
          match decodeFile W c profileFile with
          | (_, Some err) =>
              Ret (Err (Errorf "%v, filename: %s" [ArgV err; ArgS profileFile]))
          | (profileVals, None) =>
              match mergo_Merge W vals profileVals with
              | Err e => Ret (Err e)
              | Ok vals' => profile_values W c rest vals'
              end
          end
      end
  end.

(** [Load] up to the typed decode: the values it passes to [decodeMap],
    or the error it returns or the panic that ends it before. *)
Definition Load_values (W : World) (c : confucius) (cfg : Cfg W) : go (result (tree W)) :=
  if negb (isStructPtr W cfg) then Ret (Err (Errorf "cfg must be a pointer to a struct" []))
  else
    let '(file, err) := findCfgFile W c in
    match unless_reader c err with
    | Some e => Ret (Err e)
    | None =>
        let '(vals, err) := decodeFile W c file in
        match unless_reader c err with
        | Some e => Ret (Err e)
        | None =>
            if useReader c then
              match decodeReader W c (readerConfig c) (readerDecoder c) with
              | (_, Some e) => Ret (Err e)
              | (readerVals, None) =>
                  match mergo_Merge W readerVals vals with
                  | Err e => Ret (Err e)
                  | Ok readerVals' => profile_values W c (profiles c) readerVals'
                  end
              end
            else profile_values W c (profiles c) vals
        end
    end.

(** The leaf of index [i], in the order of [flattenCfg], as [Load] has
    left it, when [Load] got to the fields. *)
Definition leaf_after (o : outcome) (i : nat) : option field :=
  match o with
  | Loaded leaves | FailedFields leaves _ => nth_error leaves i
  | _ => None
  end.

(** The entry of a path in the aggregated field errors [Load] has
    returned, if it has returned them and they have one. *)
Definition error_at (o : outcome) (p : string) : option error :=
  match o with
  | FailedFields _ errs => errs !! p
  | _ => None
  end.

(** The same configuration without the in-memory reader. *)
Definition without_reader (c : confucius) : confucius := {|
  useEnv := useEnv c;
  useReader := false;
  dirs := dirs c;
  profiles := profiles c;
  filename := filename c;
  tag := tag c;
  timeLayout := timeLayout c;
  envPrefix := envPrefix c;
  profileLayout := profileLayout c;
  readerConfig := readerConfig c;
  readerDecoder := readerDecoder c;
|}.

(** A world with the files [files] (path and content).  A tree is the
    list of the documents that went into it, the merge appends the
    source to the destination, every decoder accepts its input, the
    destination is the list of its leaves and the typed decode leaves it
    as it is; [filepath.Join] on the directory [.] gives the file
    name. *)
Fixpoint lookup_file (files : list (string * string)) (p : string) : option string :=
  match files with
  | [] => None
  | (q, content) :: rest => if String.eqb p q then Some content else lookup_file rest p
  end.

Definition world_files (files : list (string * string)) : World := {|
  Cfg := list field;
  tree := list string;
  nil_map := [];
  isStructPtr := fun _ => true;
  fileExists := fun p => match lookup_file files p with Some _ => true | None => false end;
  flattenCfg := fun cfg _ => cfg;
  filepath_Join := fun dir file => if String.eqb dir "." then file else dir +:+ "/" +:+ file;
  os_Open := fun p =>
    match lookup_file files p with
    | Some content => Ok content
    | None => Err (LibError "os" "no such file or directory")
    end;
  yaml_Decode := fun r => Ok [r];
  json_Decode := fun r => Ok [r];
  toml_LoadReader := fun r => Ok [r];
  mergo_Merge := fun dst src => Ok (dst ++ src)%list;
  mapstructure_Decode := fun _ _ _ _ cfg => Ok cfg;
|}.

(** * Theorems *)

(** ** The value coercer *)

Section CoercerFacts.

Variable lib : GoLib.
Variable stringSlice : string -> list string.
Variable c : confucius.

Local Abbreviation setValue := (setValue lib stringSlice c).

Lemma setSlice_unfold elem sv val :
  setValue (SliceT elem) sv val = setSlice lib stringSlice c elem sv val.
Proof. reflexivity. Qed.

Lemma allocated_no_nil t fv : no_nil t fv = true -> allocated t fv = fv.
Proof.
  induction t; simpl; intros H; try reflexivity.
  destruct fv as [x|]; [|discriminate].
  f_equal. now apply IHt.
Qed.

(** A failed coercion leaves the destination as it was, except for the
    nil pointers it has allocated on the way. *)
Lemma setValue_failure t fv val e :
  (setValue t fv val).2 = Some e -> (setValue t fv val).1 = allocated t fv.
Proof.
  revert fv; induction t; intros fv; simpl;
    try (match goal with |- context [match ?p with Ok _ => _ | Err _ => _ end] =>
           destruct p end; simpl; intros H; (reflexivity || discriminate)).
  - discriminate.
  - reflexivity.
  - set (pointee := match fv with None => Zero t0 | Some x => x end).
    specialize (IHt pointee).
    destruct (setValue t0 pointee val) as [x err]; simpl in *.
    intros H. f_equal. now apply IHt.
  - reflexivity.
Qed.

(** A successful coercion yields a value that depends on the type and
    the literal only, not on what the destination held. *)
Lemma setValue_success_indep t fv fv' val y :
  setValue t fv val = (y, None) -> setValue t fv' val = (y, None).
Proof.
  revert fv fv' y; induction t; intros fv fv' y; simpl;
    try (match goal with |- context [match ?p with Ok _ => _ | Err _ => _ end] =>
           destruct p end; simpl; intros H; congruence).
  - congruence.
  - discriminate.
  - set (p := match fv with None => Zero t0 | Some x => x end).
    set (p' := match fv' with None => Zero t0 | Some x => x end).
    specialize (IHt p p').
    destruct (setValue t0 p val) as [x err].
    intros H. injection H as <- ->.
    now rewrite (IHt x eq_refl).
  - discriminate.
Qed.

End CoercerFacts.

(** C1, as stated, fails: coercing ["-5"] through a nil pointer to an
    unsigned integer returns an error, and the pointer is no longer nil
    (it points to a fresh zero). *)
Lemma C1_nil_pointer_is_allocated :
  let r := setValue lib_reject stringSlice_spec defaultConfucius
             (PtrT (UintT KUint)) None "-5" in
  r.2 = Some (NumError "ParseUint" "-5" ErrSyntax) /\ r.1 = Some 0 /\ r.1 <> None.
Proof. repeat split. discriminate. Qed.

(** C1, amended: when [setValue] returns an error the destination holds
    its prior value, except that the nil pointers on the way to the
    pointee have been allocated.  So a destination that is not a pointer,
    or whose pointers are all non-nil, is unchanged; coercing ["-5"] into
    any unsigned leaf fails and leaves it unchanged; a failing element
    leaves the whole slice unchanged; and a failing coercion through a
    nil pointer leaves the pointer allocated, pointing to the zero value
    with its own nil pointers allocated. *)
Theorem C1_setValue_failure_keeps_value
    (lib : GoLib) (stringSlice : string -> list string) (c : confucius)
    (t : type) (fv : denote t) (val : string) (e : error) :
  (setValue lib stringSlice c t fv val).2 = Some e ->
  (setValue lib stringSlice c t fv val).1 = allocated t fv
  /\ (no_nil t fv = true -> (setValue lib stringSlice c t fv val).1 = fv)
  /\ (forall (k : UintKind) (u : denote (UintT k)),
        setValue lib stringSlice c (UintT k) u "-5"
        = (u, Some (NumError "ParseUint" "-5" ErrSyntax)))
  /\ (forall (elem : type) (sv : denote (SliceT elem)) (lit : string) (e' : error),
        (setValue lib stringSlice c (SliceT elem) sv lit).2 = Some e' ->
        (setValue lib stringSlice c (SliceT elem) sv lit).1 = sv)
  /\ (forall (elem : type) (lit : string) (e' : error),
        (setValue lib stringSlice c (PtrT elem) None lit).2 = Some e' ->
        (setValue lib stringSlice c (PtrT elem) None lit).1
        = Some (allocated elem (Zero elem))).
Proof.
  intros H. repeat split.
  - eapply setValue_failure; eauto.
  - intros Hn. erewrite setValue_failure by eauto. now apply allocated_no_nil.
  - intros elem sv lit e' H'.
    now rewrite (setValue_failure _ _ _ _ _ _ _ H').
  - intros elem lit e' H'.
    now rewrite (setValue_failure _ _ _ _ _ _ _ H').
Qed.

Lemma C1_setValue_failure_witness :
  let r := setValue lib_reject stringSlice_spec defaultConfucius
             (SliceT (PtrT (UintT KUint8))) [Some 7; None] "[1, -5]" in
  r.2 = Some (NumError "ParseUint" "-5" ErrSyntax) /\ r.1 = [Some 7; None].
Proof.
  split; [reflexivity|].
  apply (C1_setValue_failure_keeps_value lib_reject stringSlice_spec defaultConfucius
           (SliceT (PtrT (UintT KUint8))) [Some 7; None] "[1, -5]"
           (NumError "ParseUint" "-5" ErrSyntax));
    reflexivity.
Defined.

(** C2: the code parses every signed integer with a bit size of 64 and
    stores the low bits: ["300"] coerced into an [int8] leaf is not an
    error, the leaf becomes 44; a parse sized to the width of the leaf
    would have reported the literal as out of range. *)
Theorem C2_int8_300_wraps
    (lib : GoLib) (stringSlice : string -> list string) (c : confucius)
    (fv : denote (IntT KInt8)) :
  setValue lib stringSlice c (IntT KInt8) fv "300" = (44, None)
  /\ strconv_ParseInt "300" (IntBits KInt8) = Err (NumError "ParseInt" "300" ErrRange).
Proof. split; reflexivity. Qed.

(** ** The policy resolver *)

Section PolicyFacts.

Variable lib : GoLib.
Variable stringSlice : string -> list string.
Variable isZero : forall t : type, denote t -> bool.
Variable env : gmap string string.
Variable c : confucius.

Local Abbreviation pField := (processField lib stringSlice isZero env c).
Local Abbreviation pFields := (processFields lib stringSlice isZero env c).
Local Abbreviation pCfg := (processCfg lib stringSlice isZero env c).
Local Abbreviation overlay := (envOverlay lib stringSlice env c).

Lemma processField_both f :
  required f = true -> setDefault f = true ->
  pField f
  = (f, Some (Errorf "field cannot have both a required validation and a default value" [])).
Proof. intros Hr Hd. unfold processField. now rewrite Hr, Hd. Qed.

(** Past the mutual-exclusion check and a successful overlay,
    [processField] is the required check followed by the default. *)
Lemma processField_after_overlay f v1 :
  required f && setDefault f = false ->
  overlay f = (v1, None) ->
  pField f
  = if required f && isZero (t f) v1 then
      (with_v f v1, Some (Errorf "required validation failed" []))
    else if setDefault f && isZero (t f) v1 then
      match setDefaultValue lib stringSlice c (t f) v1 (defaultVal f) with
      | (v2, Some err) => (with_v f v2, Some (Errorf "unable to set default: %v" [ArgV err]))
      | (v2, None) => (with_v f v2, None)
      end
    else (with_v f v1, None).
Proof.
  intros Hb Ho. unfold processField. rewrite Hb.
  fold (overlay f). now rewrite Ho.
Qed.

(** The entry of a path in the aggregated errors, when every leaf of
    that path fails with the same error. *)
Lemma processFields_lookup fields errs k e :
  (forall g, In g fields -> path g = k -> (pField g).2 = Some e) ->
  (errs !! k = Some e \/ exists g, In g fields /\ path g = k) ->
  (pFields fields errs).2 !! k = Some e.
Proof.
  revert errs; induction fields as [|f rest IH]; intros errs Hall Hex; simpl.
  - destruct Hex as [H|(g & [] & _)]. exact H.
  - destruct (pField f) as [f' err] eqn:Ef.
    match goal with |- context [pFields rest ?m] => set (errs' := m) end.
    specialize (IH errs').
    destruct (pFields rest errs') as [rest' errs''] eqn:Er. simpl in *.
    apply IH.
    + intros g Hg Hp. apply Hall; auto.
    + destruct (decide (path f = k)) as [Hk|Hk].
      * left. specialize (Hall f (or_introl eq_refl) Hk).
        rewrite Ef in Hall. simpl in Hall. subst err errs' k.
        apply lookup_insert_eq.
      * destruct Hex as [H|(g & [Hg|Hg] & Hp)].
        -- left. subst errs'. destruct err; [rewrite lookup_insert_ne|]; auto.
        -- subst g. contradiction.
        -- right. eauto.
Qed.

Lemma processFields_is_Some fields errs k :
  (is_Some (errs !! k)
   \/ exists g, In g fields /\ path g = k /\ is_Some (pField g).2) ->
  is_Some ((pFields fields errs).2 !! k).
Proof.
  revert errs; induction fields as [|f rest IH]; intros errs Hex; simpl.
  - destruct Hex as [H|(g & [] & _)]. exact H.
  - destruct (pField f) as [f' err] eqn:Ef.
    match goal with |- context [pFields rest ?m] => set (errs' := m) end.
    specialize (IH errs').
    destruct (pFields rest errs') as [rest' errs''] eqn:Er. simpl in *.
    apply IH.
    destruct Hex as [H|(g & [Hg|Hg] & Hp & Hs)].
    + left. subst errs'. destruct err; auto.
      destruct (decide (path f = k)) as [->|Hk].
      * rewrite lookup_insert_eq. eauto.
      * now rewrite lookup_insert_ne.
    + left. subst g errs'. rewrite Ef in Hs. simpl in Hs.
      destruct Hs as [e ->]. rewrite Hp, lookup_insert_eq. eauto.
    + right. eauto.
Qed.

(** [processCfg] returns the aggregated errors as soon as one leaf
    fails. *)
Lemma processCfg_fails fields f :
  In f fields -> is_Some (pField f).2 ->
  exists leaves errs,
    pCfg fields = (leaves, Some errs)
    /\ errs = (pFields fields ∅).2
    /\ is_Some (errs !! path f).
Proof.
  intros Hin Hs. unfold processCfg.
  assert (Hk : is_Some ((pFields fields ∅).2 !! path f)).
  { apply processFields_is_Some. right. eauto. }
  destruct (pFields fields ∅) as [leaves errs]. simpl in *.
  assert (Hsz : size errs <> 0%nat).
  { apply map_size_ne_0_lookup. eauto. }
  destruct (0 <? size errs)%nat eqn:E.
  - eauto.
  - apply Nat.ltb_ge in E. lia.
Qed.

(** The leaves [processCfg] leaves behind are those of [processField],
    leaf by leaf. *)
Lemma processFields_leaves fields errs :
  (pFields fields errs).1 = map (fun f => (pField f).1) fields.
Proof.
  revert errs; induction fields as [|f rest IH]; intros errs; simpl; [reflexivity|].
  destruct (pField f) as [f' err]. simpl.
  match goal with |- context [pFields rest ?m] => specialize (IH m) end.
  destruct (pFields rest _) as [rest' errs']. simpl in *. now rewrite IH.
Qed.

Lemma processCfg_leaves fields :
  (pCfg fields).1 = map (fun f => (pField f).1) fields.
Proof.
  unfold processCfg. rewrite <- (processFields_leaves fields ∅).
  destruct (pFields fields ∅) as [leaves errs]. simpl.
  now destruct (0 <? size errs)%nat.
Qed.

Lemma processCfg_leaf fields f :
  In f fields -> In (pField f).1 (pCfg fields).1.
Proof.
  intros H. rewrite processCfg_leaves.
  apply (in_map (fun f => (pField f).1)), H.
Qed.

Lemma processFields_dom fields errs k :
  is_Some ((pFields fields errs).2 !! k) <->
  is_Some (errs !! k)
  \/ exists g, In g fields /\ path g = k /\ is_Some (pField g).2.
Proof.
  split; [|apply processFields_is_Some].
  revert errs; induction fields as [|f rest IH]; intros errs; simpl.
  - now left.
  - destruct (pField f) as [f' err] eqn:Ef.
    match goal with |- context [pFields rest ?m] => set (errs' := m) end.
    specialize (IH errs').
    destruct (pFields rest errs') as [rest' errs''] eqn:Er. simpl in *.
    intros H. destruct (IH H) as [H'|(g & Hg & Hp & Hs)].
    + subst errs'. destruct err as [e|]; [|now left].
      destruct (decide (path f = k)) as [Hk|Hk].
      * right. exists f. rewrite Ef. simpl. eauto.
      * left. now rewrite lookup_insert_ne in H'.
    + right. eauto.
Qed.

Lemma processCfg_errors fields :
  (pCfg fields).2
  = if (0 <? size (pFields fields ∅).2)%nat then Some (pFields fields ∅).2 else None.
Proof.
  unfold processCfg. destruct (pFields fields ∅) as [leaves errs]. simpl.
  now destruct (0 <? size errs)%nat.
Qed.

Lemma processCfg_error_keys fields errs k :
  (pCfg fields).2 = Some errs ->
  is_Some (errs !! k) <->
  exists f, In f fields /\ path f = k /\ is_Some (pField f).2.
Proof.
  rewrite processCfg_errors.
  destruct (0 <? size (pFields fields ∅).2)%nat; [|discriminate].
  intros [= <-]. rewrite processFields_dom. rewrite lookup_empty.
  split; [intros [[x Hx]|H]; [discriminate|exact H]|now right].
Qed.

Lemma processCfg_no_error fields :
  (pCfg fields).2 = None <-> forall f, In f fields -> (pField f).2 = None.
Proof.
  rewrite processCfg_errors.
  destruct (0 <? size (pFields fields ∅).2)%nat eqn:E.
  - split; [discriminate|]. intros H. exfalso.
    apply Nat.ltb_lt in E.
    assert (Hne : size (pFields fields ∅).2 <> 0%nat) by lia.
    apply map_size_ne_0_lookup in Hne as [k Hk].
    apply processFields_dom in Hk as [Hk|(g & Hg & _ & Hs)].
    + rewrite lookup_empty in Hk. now destruct Hk.
    + rewrite (H g Hg) in Hs. now destruct Hs.
  - split; [|reflexivity]. intros _ f Hf.
    apply Nat.ltb_ge in E.
    destruct (pField f).2 as [e|] eqn:Ee; [|reflexivity]. exfalso.
    assert (Hs : is_Some ((pFields fields ∅).2 !! path f)).
    { apply processFields_dom. right. exists f. rewrite Ee. eauto. }
    assert (Hne : size (pFields fields ∅).2 <> 0%nat).
    { apply map_size_ne_0_lookup. eauto. }
    lia.
Qed.



Lemma setDefaultValue_bool ty (fv : denote ty) val :
  Kind ty = reflect.Bool ->
  setDefaultValue lib stringSlice c ty fv val
  = (fv, Some (Errorf "unsupported type: %v" [ArgKind reflect.Bool])).
Proof. intros H. unfold setDefaultValue. now rewrite H. Qed.

Lemma setDefaultValue_not_bool ty (fv : denote ty) val :
  Kind ty <> reflect.Bool ->
  setDefaultValue lib stringSlice c ty fv val = setValue lib stringSlice c ty fv val.
Proof. intros H. unfold setDefaultValue. destruct (Kind ty); congruence. Qed.

End PolicyFacts.

(** ** A leaf through [Load] *)

Section LoadLeaves.

Variable lib : GoLib.
Variable stringSlice : string -> list string.
Variable isZero : forall t : type, denote t -> bool.
Variable env : gmap string string.
Variable W : World.
Variable c : confucius.
Variable cfg : Cfg W.

Local Abbreviation the_load := (Load lib stringSlice isZero env W c cfg).
Local Abbreviation on_field := (processField lib stringSlice isZero env c).
Local Abbreviation on_fields := (processFields lib stringSlice isZero env c).
Local Abbreviation on_cfg := (processCfg lib stringSlice isZero env c).

(** [Load] is the gathering of the values followed by its tail. *)
Lemma Load_profiles_values ps vals :
  Load_profiles lib stringSlice isZero env W c ps vals cfg
  = match profile_values W c ps vals with
    | Panic msg => Aborted msg
    | Ret (Err e) => Failed e
    | Ret (Ok vals') => Load_finish lib stringSlice isZero env W c vals' cfg
    end.
Proof.
  revert vals; induction ps as [|p ps IH]; intros vals; simpl; [reflexivity|].
  destruct (findProfileCfgFile W c p) as [[file [e|]]|msg]; try reflexivity.
  destruct (decodeFile W c file) as [pv [e|]]; try reflexivity.
  destruct (mergo_Merge W vals pv); [apply IH|reflexivity].
Qed.

Lemma Load_as_values :
  the_load
  = match Load_values W c cfg with
    | Panic msg => Aborted msg
    | Ret (Err e) => Failed e
    | Ret (Ok vals) => Load_finish lib stringSlice isZero env W c vals cfg
    end.
Proof.
  unfold Load, Load_values.
  destruct (negb (isStructPtr W cfg)); [reflexivity|].
  destruct (findCfgFile W c) as [file err].
  destruct (unless_reader c err); [reflexivity|].
  destruct (decodeFile W c file) as [vals err'].
  destruct (unless_reader c err'); [reflexivity|].
  destruct (useReader c); [|apply Load_profiles_values].
  destruct (decodeReader W c _ _) as [rv [e|]]; [reflexivity|].
  destruct (mergo_Merge W rv vals); [apply Load_profiles_values|reflexivity].
Qed.

Lemma processCfg_unfold fields :
  on_cfg fields
  = ((on_fields fields ∅).1,
     if (0 <? size (on_fields fields ∅).2)%nat then Some (on_fields fields ∅).2 else None).
Proof.
  unfold processCfg. destruct (on_fields fields ∅) as [leaves errs]. simpl.
  now destruct (0 <? size errs)%nat.
Qed.

(** A leaf of a path that does not fail leaves the entry of the path as
    it was. *)
Lemma processFields_keeps fields errs k :
  (forall h, In h fields -> path h = k -> (on_field h).2 = None) ->
  (on_fields fields errs).2 !! k = errs !! k.
Proof.
  revert errs; induction fields as [|f rest IH]; intros errs H; simpl; [reflexivity|].
  destruct (on_field f) as [f' err] eqn:Ef.
  match goal with |- context [on_fields rest ?m] => set (errs' := m) end.
  specialize (IH errs').
  destruct (on_fields rest errs') as [rest' errs''] eqn:Er. simpl in *.
  rewrite IH by (intros h Hh; apply H; now right).
  subst errs'. destruct err as [e|]; [|reflexivity].
  destruct (decide (path f = k)) as [Hk|Hk].
  - specialize (H f (or_introl eq_refl) Hk). rewrite Ef in H. discriminate.
  - now rewrite lookup_insert_ne.
Qed.

Lemma processFields_app l1 l2 errs :
  (on_fields (l1 ++ l2) errs).2 = (on_fields l2 (on_fields l1 errs).2).2.
Proof.
  revert errs; induction l1 as [|f rest IH]; intros errs; simpl; [reflexivity|].
  destruct (on_field f) as [f' err].
  match goal with |- context [on_fields (rest ++ l2) ?m] => set (errs' := m) end.
  specialize (IH errs').
  destruct (on_fields (rest ++ l2) errs') as [r1 e1].
  destruct (on_fields rest errs') as [r2 e2]. simpl in *. exact IH.
Qed.

(** An entry of the aggregated errors is the error of a leaf of that
    path. *)
Lemma processFields_entry fields errs k e :
  (on_fields fields errs).2 !! k = Some e ->
  errs !! k = Some e
  \/ exists g, In g fields /\ path g = k /\ (on_field g).2 = Some e.
Proof.
  revert errs; induction fields as [|f rest IH]; intros errs; simpl; [now left|].
  destruct (on_field f) as [f' err] eqn:Ef.
  match goal with |- context [on_fields rest ?m] => set (errs' := m) end.
  specialize (IH errs').
  destruct (on_fields rest errs') as [rest' errs''] eqn:Er. simpl in *.
  intros H. destruct (IH H) as [H'|(g & Hg & Hp & He)]; [|right; eauto].
  subst errs'. destruct err as [e0|]; [|now left].
  destruct (decide (path f = k)) as [Hk|Hk].
  - subst k. rewrite lookup_insert_eq in H'. injection H' as ->.
    right. exists f. rewrite Ef. auto.
  - rewrite lookup_insert_ne in H' by exact Hk. now left.
Qed.

(** The entry of the path of a failing leaf is its error when no later
    leaf of the same path fails. *)
Lemma processFields_last before f after errs e :
  (on_field f).2 = Some e ->
  (forall h, In h after -> path h = path f -> (on_field h).2 = None) ->
  (on_fields (before ++ f :: after) errs).2 !! path f = Some e.
Proof.
  intros He Hafter. rewrite processFields_app. simpl.
  destruct (on_field f) as [f' err]. simpl in He. subst err.
  match goal with |- context [on_fields after ?m] => set (errs' := m) end.
  pose proof (processFields_keeps after errs' (path f) Hafter) as Hk.
  destruct (on_fields after errs') as [r e']. simpl in *.
  rewrite Hk. subst errs'. apply lookup_insert_eq.
Qed.

(** In any case it is the error of that leaf or of a later leaf of the
    same path. *)
Lemma processFields_from before f after errs :
  is_Some (on_field f).2 ->
  exists g, In g (f :: after) /\ path g = path f /\ is_Some (on_field g).2
            /\ (on_fields (before ++ f :: after) errs).2 !! path f = (on_field g).2.
Proof.
  intros [e He]. rewrite processFields_app. simpl.
  destruct (on_field f) as [f' err] eqn:Ef. simpl in He. subst err.
  match goal with |- context [on_fields after ?m] => set (errs' := m) end.
  destruct (processFields_is_Some lib stringSlice isZero env c after errs' (path f))
    as [e' He'].
  { left. subst errs'. rewrite lookup_insert_eq. eauto. }
  pose proof (processFields_entry after errs' (path f) e' He') as Hfrom.
  destruct (on_fields after errs') as [r e2]. simpl in *.
  destruct Hfrom as [H|(g & Hg & Hp & Hge)].
  - subst errs'. rewrite lookup_insert_eq in H. injection H as <-.
    exists f. rewrite Ef. simpl. repeat split; eauto.
  - exists g. rewrite Hge, He'. repeat split; eauto.
Qed.

Variable vals : tree W.
Variable cfg' : Cfg W.
Hypothesis Hvals : Load_values W c cfg = Ret (Ok vals).
Hypothesis Hdec : decodeMap env W c vals cfg = Ok cfg'.

Local Abbreviation fields := (flattenCfg W cfg' (tag c)).

(** Once the values are gathered and decoded, [Load] is [processCfg]. *)
Lemma Load_at_fields :
  the_load
  = match on_cfg fields with
    | (leaves, Some errs) => FailedFields leaves errs
    | (leaves, None) => Loaded leaves
    end.
Proof. rewrite Load_as_values, Hvals. unfold Load_finish. now rewrite Hdec. Qed.

Lemma Load_leaf_after before f after :
  fields = (before ++ f :: after)%list ->
  leaf_after the_load (length before) = Some (on_field f).1.
Proof.
  intros Hf. rewrite Load_at_fields.
  pose proof (processCfg_leaves lib stringSlice isZero env c fields) as Hl.
  destruct (on_cfg fields) as [leaves [errs|]]; simpl in *; subst leaves;
    rewrite Hf, map_app, nth_error_app2 by (rewrite length_map; lia);
    rewrite length_map, Nat.sub_diag; reflexivity.
Qed.

Lemma Load_error_at k :
  error_at the_load k = (on_fields fields ∅).2 !! k.
Proof.
  rewrite Load_at_fields, processCfg_unfold.
  destruct (0 <? size (on_fields fields ∅).2)%nat eqn:E; simpl; [reflexivity|].
  apply Nat.ltb_ge in E.
  destruct ((on_fields fields ∅).2 !! k) as [e|] eqn:Ek; [|reflexivity].
  assert (Hne : size (on_fields fields ∅).2 <> 0%nat).
  { apply map_size_ne_0_lookup. eauto. }
  lia.
Qed.

Lemma Load_leaf_error before f after e :
  fields = (before ++ f :: after)%list ->
  (on_field f).2 = Some e ->
  (forall h, In h after -> path h = path f -> (on_field h).2 = None) ->
  error_at the_load (path f) = Some e.
Proof. intros Hf He Ha. rewrite Load_error_at, Hf. now apply processFields_last. Qed.

Lemma Load_leaf_fails before f after :
  fields = (before ++ f :: after)%list ->
  is_Some (on_field f).2 ->
  is_loaded the_load = false
  /\ exists g, In g (f :: after) /\ path g = path f /\ is_Some (on_field g).2
               /\ error_at the_load (path f) = (on_field g).2.
Proof.
  intros Hf Hs. split.
  - rewrite Load_at_fields.
    destruct (processCfg_fails lib stringSlice isZero env c fields f)
      as (leaves & errs & -> & _); [|exact Hs|reflexivity].
    rewrite Hf. apply in_or_app. right. now left.
  - rewrite Load_error_at, Hf. now apply processFields_from.
Qed.

Lemma Load_path_accepted k :
  (forall h, In h fields -> path h = k -> (on_field h).2 = None) ->
  error_at the_load k = None.
Proof.
  intros H. rewrite Load_error_at, (processFields_keeps fields ∅ k H).
  apply lookup_empty.
Qed.

Lemma Load_all_accepted :
  (forall h, In h fields -> (on_field h).2 = None) ->
  the_load = Loaded (map (fun g => (on_field g).1) fields).
Proof.
  intros H. rewrite Load_at_fields.
  pose proof (processCfg_leaves lib stringSlice isZero env c fields) as Hl.
  apply (processCfg_no_error lib stringSlice isZero env c) in H.
  destruct (on_cfg fields) as [leaves [errs|]]; simpl in *; [discriminate|].
  now subst leaves.
Qed.

End LoadLeaves.







(** C5, as stated, fails: with the environment in use and [PORT=abc], a
    leaf that is 0 and carries the default ["5"] is zero after the
    overlay, which has failed and left it as it was, and ["5"] coerces to
    5; yet the leaf is still 0 after [Load], and the error at its path is
    the one of the overlay. *)
Lemma C5_failed_overlay_skips_default :
  let c := with_reader "port: 0" ".yaml" (with_env EmptyString defaultConfucius) in
  let f := {| t := IntT KInt; v := 0; path := "port";
              required := false; setDefault := true; defaultVal := "5" |} in
  let env : gmap string string := {[ "PORT" := "abc" ]} in
  let o := Load lib_reject stringSlice_spec isZero_spec env world_empty c [f] in
  isZero_spec (t f) (envOverlay lib_reject stringSlice_spec env c f).1 = true
  /\ setValue lib_reject stringSlice_spec c (t f) (v f) "5" = (5, None)
  /\ leaf_after o 0 = Some f
  /\ error_at o "port"
     = Some (Errorf "unable to set from env: %v" [ArgV (NumError "ParseInt" "abc" ErrSyntax)]).
Proof. vm_compute. repeat split. Qed.

(** C5, amended: for a leaf that carries a default.  When the leaf is
    not also required and the overlay of the environment has gone
    through: if the leaf is then zero, [processField] coerces the default
    literal into it, the leaf holding the coercion of the literal (a
    value fixed by the type and the literal) on success and the failure
    being reported as [unable to set default: <detail>]; if the leaf is
    not zero it is left as the overlay left it and no error is reported.
    When the overlay fails the default is not applied: the error is that
    of the overlay.  When the leaf is also required the default is not
    applied either.  The coercion of a default is [setDefaultValue],
    which refuses a boolean.  The leaf after [processField] is the one
    [processCfg] leaves behind, and the one a [Load] that gets to the
    fields leaves behind; an error of the leaf makes that [Load] return
    the aggregated errors with an entry at the path of the leaf, which is
    that error when no later leaf of the same path fails. *)
Theorem C5_default_injection
    (lib : GoLib) (stringSlice : string -> list string)
    (isZero : forall t : type, denote t -> bool) (env : gmap string string)
    (c : confucius) (f : field) :
  setDefault f = true ->
  (forall v1 : denote (t f),
     required f = false ->
     envOverlay lib stringSlice env c f = (v1, None) ->
     (isZero (t f) v1 = true ->
        (forall y, setDefaultValue lib stringSlice c (t f) v1 (defaultVal f) = (y, None) ->
           processField lib stringSlice isZero env c f = (with_v f y, None)
           /\ forall fv', setValue lib stringSlice c (t f) fv' (defaultVal f) = (y, None))
        /\ (forall v2 err,
              setDefaultValue lib stringSlice c (t f) v1 (defaultVal f) = (v2, Some err) ->
              processField lib stringSlice isZero env c f
              = (with_v f v2, Some (Errorf "unable to set default: %v" [ArgV err]))))
     /\ (isZero (t f) v1 = false ->
         processField lib stringSlice isZero env c f = (with_v f v1, None)))
  /\ (forall (v1 : denote (t f)) (err : error),
        required f = false ->
        envOverlay lib stringSlice env c f = (v1, Some err) ->
        processField lib stringSlice isZero env c f
        = (with_v f v1, Some (Errorf "unable to set from env: %v" [ArgV err])))
  /\ (required f = true ->
      processField lib stringSlice isZero env c f
      = (f, Some (Errorf "field cannot have both a required validation and a default value" [])))
  /\ (Kind (t f) = reflect.Bool ->
      forall (fv : denote (t f)) (val : string),
        setDefaultValue lib stringSlice c (t f) fv val
        = (fv, Some (Errorf "unsupported type: %v" [ArgKind reflect.Bool])))
  /\ (forall fields : list field,
        In f fields ->
        In (processField lib stringSlice isZero env c f).1
           (processCfg lib stringSlice isZero env c fields).1)
  /\ (forall (W : World) (cfg : Cfg W) (vals : tree W) (cfg' : Cfg W)
             (before after : list field),
        Load_values W c cfg = Ret (Ok vals) ->
        decodeMap env W c vals cfg = Ok cfg' ->
        flattenCfg W cfg' (tag c) = (before ++ f :: after)%list ->
        leaf_after (Load lib stringSlice isZero env W c cfg) (length before)
        = Some (processField lib stringSlice isZero env c f).1
        /\ (forall err,
              (processField lib stringSlice isZero env c f).2 = Some err ->
              is_loaded (Load lib stringSlice isZero env W c cfg) = false
              /\ is_Some (error_at (Load lib stringSlice isZero env W c cfg) (path f))
              /\ ((forall h, In h after -> path h = path f ->
                     (processField lib stringSlice isZero env c h).2 = None) ->
                  error_at (Load lib stringSlice isZero env W c cfg) (path f) = Some err))
        /\ ((processField lib stringSlice isZero env c f).2 = None ->
            (forall h, In h (before ++ after) ->
               (processField lib stringSlice isZero env c h).2 = None) ->
            is_loaded (Load lib stringSlice isZero env W c cfg) = true)).
Proof.
  intros Hd.
  split; [|split; [|split; [|split; [|split]]]].
  - intros v1 Hr Ho.
    assert (Hb : required f && setDefault f = false) by now rewrite Hr.
    pose proof (processField_after_overlay lib stringSlice isZero env c f v1 Hb Ho) as Hpf.
    rewrite Hr, Hd in Hpf. simpl in Hpf.
    split; [intros Hz; split|intros Hz].
    + intros y Hy. rewrite Hpf, Hz, Hy. split; [reflexivity|].
      intros fv'. unfold setDefaultValue in Hy.
      destruct (Kind (t f)) eqn:Ek; try discriminate;
        eapply setValue_success_indep; eauto.
    + intros v2 err Hy. now rewrite Hpf, Hz, Hy.
    + now rewrite Hpf, Hz.
  - intros v1 err Hr Ho. unfold processField. rewrite Hr. simpl. now rewrite Ho.
  - intros Hr. now apply processField_both.
  - intros Hk fv val. now apply setDefaultValue_bool.
  - intros fields. apply processCfg_leaf.
  - intros W cfg vals cfg' before after Hv Hdec Hf.
    split; [eapply Load_leaf_after; eauto|]. split.
    + intros err He.
      destruct (Load_leaf_fails lib stringSlice isZero env W c cfg vals cfg' Hv Hdec
                  before f after Hf) as (Hl & g & Hg & Hp & Hs & Hat).
      { rewrite He. eauto. }
      split; [exact Hl|]. split; [now rewrite Hat|].
      intros Ha. eapply Load_leaf_error; eauto.
    + intros He Hall.
      rewrite (Load_all_accepted lib stringSlice isZero env W c cfg vals cfg' Hv Hdec);
        [reflexivity|].
      intros h Hh. rewrite Hf in Hh. apply in_app_or in Hh as [Hh|[<-|Hh]]; auto.
      * apply Hall, in_or_app. now left.
      * apply Hall, in_or_app. now right.
Qed.

Lemma C5_default_injection_witness :
  let c := with_reader "server: {}" ".yaml" defaultConfucius in
  let f := {| t := SliceT (IntT KInt); v := []; path := "server.ports";
              required := false; setDefault := true; defaultVal := "[80,443]" |} in
  processField lib_reject stringSlice_spec isZero_spec ∅ c f = (with_v f [80; 443], None)
  /\ leaf_after (Load lib_reject stringSlice_spec isZero_spec ∅ world_empty c [f]) 0
     = Some (with_v f [80; 443]).
Proof.
  intros c f.
  pose proof (C5_default_injection lib_reject stringSlice_spec isZero_spec ∅ c f eq_refl)
    as (H1 & _ & _ & _ & _ & HL).
  pose proof (proj1 (proj1 (H1 [] eq_refl eq_refl) eq_refl) [80; 443] eq_refl) as [Hp _].
  split; [exact Hp|].
  refine (eq_trans (proj1 (HL world_empty [f] tt [f] [] [] eq_refl eq_refl eq_refl)) _).
  now rewrite Hp.
Defined.

(** C6: [setDefaultValue] rejects a boolean destination with an
    [unsupported type] error whatever the literal and the current value,
    but [processField] calls it only for a leaf that is zero.  So a
    boolean leaf with a default (and not required) is rejected, with
    [unable to set default: unsupported type: bool], when it is zero
    after the overlay of the environment, and is accepted unchanged, with
    no error, when it is not: a [Load] that gets to the fields leaves it
    as the overlay left it, files no error at its path, and succeeds
    when the other leaves are accepted. *)
Theorem C6_bool_default
    (lib : GoLib) (stringSlice : string -> list string)
    (isZero : forall t : type, denote t -> bool) (env : gmap string string)
    (c : confucius) (f : field) (v1 : denote (t f)) :
  Kind (t f) = reflect.Bool ->
  setDefault f = true ->
  required f = false ->
  envOverlay lib stringSlice env c f = (v1, None) ->
  (forall (fv : denote (t f)) (val : string),
     setDefaultValue lib stringSlice c (t f) fv val
     = (fv, Some (Errorf "unsupported type: %v" [ArgKind reflect.Bool])))
  /\ (isZero (t f) v1 = true ->
      processField lib stringSlice isZero env c f
      = (with_v f v1,
         Some (Errorf "unable to set default: %v"
                 [ArgV (Errorf "unsupported type: %v" [ArgKind reflect.Bool])])))
  /\ (isZero (t f) v1 = false ->
      processField lib stringSlice isZero env c f = (with_v f v1, None))
  /\ (forall (W : World) (cfg : Cfg W) (vals : tree W) (cfg' : Cfg W)
             (before after : list field),
        Load_values W c cfg = Ret (Ok vals) ->
        decodeMap env W c vals cfg = Ok cfg' ->
        flattenCfg W cfg' (tag c) = (before ++ f :: after)%list ->
        isZero (t f) v1 = false ->
        leaf_after (Load lib stringSlice isZero env W c cfg) (length before)
        = Some (with_v f v1)
        /\ ((forall h, In h (before ++ after) -> path h = path f ->
               (processField lib stringSlice isZero env c h).2 = None) ->
            error_at (Load lib stringSlice isZero env W c cfg) (path f) = None)
        /\ ((forall h, In h (before ++ after) ->
               (processField lib stringSlice isZero env c h).2 = None) ->
            is_loaded (Load lib stringSlice isZero env W c cfg) = true)).
Proof.
  intros Hk Hd Hr Ho.
  assert (Hb : required f && setDefault f = false) by now rewrite Hr.
  pose proof (processField_after_overlay lib stringSlice isZero env c f v1 Hb Ho) as Hpf.
  rewrite Hr, Hd in Hpf. simpl in Hpf.
  split; [|split; [|split]].
  - intros fv val. now apply setDefaultValue_bool.
  - intros Hz. rewrite Hpf, Hz. now rewrite setDefaultValue_bool.
  - intros Hz. now rewrite Hpf, Hz.
  - intros W cfg vals cfg' before after Hv Hdec Hf Hz.
    rewrite Hz in Hpf.
    assert (Hall : forall (P : field -> Prop),
               (forall h, In h (before ++ after) -> P h) -> P f ->
               forall h, In h (flattenCfg W cfg' (tag c)) -> P h).
    { intros P HP Pf h Hh. rewrite Hf in Hh.
      apply in_app_or in Hh as [Hh|[<-|Hh]]; auto; apply HP, in_or_app; auto. }
    split; [|split].
    + rewrite (Load_leaf_after lib stringSlice isZero env W c cfg vals cfg' Hv Hdec
                 before f after Hf).
      now rewrite Hpf.
    + intros Ha. eapply Load_path_accepted; eauto.
      apply (Hall (fun h => path h = path f ->
                            (processField lib stringSlice isZero env c h).2 = None)).
      * exact Ha.
      * intros _. now rewrite Hpf.
    + intros Ha.
      rewrite (Load_all_accepted lib stringSlice isZero env W c cfg vals cfg' Hv Hdec);
        [reflexivity|].
      apply (Hall (fun h => (processField lib stringSlice isZero env c h).2 = None)).
      * exact Ha.
      * now rewrite Hpf.
Qed.

Lemma C6_bool_default_witness :
  let c := with_reader "logger: {trace: true}" ".yaml" defaultConfucius in
  let f := {| t := BoolT; v := true; path := "logger.trace";
              required := false; setDefault := true; defaultVal := "false" |} in
  setDefaultValue lib_reject stringSlice_spec c (t f) (v f) (defaultVal f)
  = (true, Some (Errorf "unsupported type: %v" [ArgKind reflect.Bool]))
  /\ processField lib_reject stringSlice_spec isZero_spec ∅ c f = (f, None)
  /\ is_loaded (Load lib_reject stringSlice_spec isZero_spec ∅ world_empty c [f]) = true
  /\ leaf_after (Load lib_reject stringSlice_spec isZero_spec ∅ world_empty c [f]) 0 = Some f.
Proof.
  intros c f.
  pose proof (C6_bool_default lib_reject stringSlice_spec isZero_spec ∅ c f true
                eq_refl eq_refl eq_refl eq_refl) as (H1 & _ & H3 & HL).
  destruct (HL world_empty [f] tt [f] [] [] eq_refl eq_refl eq_refl eq_refl) as (Ha & _ & Hb).
  split; [exact (H1 true "false")|]. split; [exact (H3 eq_refl)|].
  split; [apply Hb; intros h []|exact Ha].
Defined.

(** ** The path formatter *)

Lemma replacer_is_normalize (key : string) :
  Replacer_Replace [("."%char, "_"); ("["%char, "_"); ("]"%char, EmptyString)] key
  = normalize_path key.
Proof.
  unfold normalize_path.
  induction key as [|a s IH]; [reflexivity|].
  simpl. rewrite IH. clear IH.
  destruct (Ascii.eqb a ".") eqn:E1.
  { apply Ascii.eqb_eq in E1. subst a. reflexivity. }
  destruct (Ascii.eqb a "[") eqn:E2.
  { apply Ascii.eqb_eq in E2. subst a. reflexivity. }
  destruct (Ascii.eqb a "]") eqn:E3.
  { apply Ascii.eqb_eq in E3. subst a. reflexivity. }
  simpl. rewrite E2. simpl. rewrite E3. reflexivity.
Qed.

Lemma join_prefix_eqb (prefix key : string) :
  (if String.eqb prefix EmptyString then key else prefix +:+ "_" +:+ key)
  = join_prefix prefix key.
Proof. destruct prefix; reflexivity. Qed.

Lemma isASCII_app (a b : string) : isASCII (a +:+ b) = isASCII a && isASCII b.
Proof.
  induction a as [|x a IH]; simpl; [reflexivity|].
  now rewrite IH, andb_assoc.
Qed.

Lemma map_bytes_app (f : ascii -> ascii) (a b : string) :
  map_bytes f (a +:+ b) = map_bytes f a +:+ map_bytes f b.
Proof. induction a as [|x a IH]; simpl; [reflexivity|]. now rewrite IH. Qed.

Lemma isASCII_replace_byte (old : ascii) (new s : string) :
  isASCII new = true -> isASCII s = true -> isASCII (replace_byte old new s) = true.
Proof.
  intros Hn. induction s as [|x s IH]; simpl; [reflexivity|].
  intros H. apply andb_true_iff in H as [Hx Hs].
  destruct (Ascii.eqb x old).
  - rewrite isASCII_app, Hn. simpl. auto.
  - simpl. rewrite Hx. simpl. auto.
Qed.

Lemma isASCII_normalize_path (p : string) :
  isASCII p = true -> isASCII (normalize_path p) = true.
Proof.
  intros H. unfold normalize_path.
  repeat apply isASCII_replace_byte; auto.
Qed.

Lemma has_byte_app (c : ascii) (a b : string) :
  has_byte c (a +:+ b) = has_byte c a || has_byte c b.
Proof.
  induction a as [|x a IH]; simpl; [reflexivity|].
  now rewrite IH, orb_assoc.
Qed.

(** After a pass no byte [old] is left, when the replacement has none. *)
Lemma replace_byte_removes (old : ascii) (new s : string) :
  has_byte old new = false -> has_byte old (replace_byte old new s) = false.
Proof.
  intros Hn. induction s as [|x s IH]; simpl; [reflexivity|].
  destruct (Ascii.eqb x old) eqn:E.
  - rewrite has_byte_app, Hn, IH. reflexivity.
  - simpl. now rewrite E, IH.
Qed.

(** A pass brings in no byte [c] that neither the string nor the
    replacement had. *)
Lemma replace_byte_keeps_absent (c old : ascii) (new s : string) :
  has_byte c new = false -> has_byte c s = false ->
  has_byte c (replace_byte old new s) = false.
Proof.
  intros Hn. induction s as [|x s IH]; simpl; [reflexivity|].
  intros H. apply orb_false_iff in H as [Hx Hs].
  destruct (Ascii.eqb x old).
  - rewrite has_byte_app, Hn. simpl. auto.
  - simpl. rewrite Hx. simpl. auto.
Qed.

Lemma normalize_path_clean (p : string) :
  has_byte "." (normalize_path p) = false
  /\ has_byte "[" (normalize_path p) = false
  /\ has_byte "]" (normalize_path p) = false.
Proof.
  unfold normalize_path. repeat split.
  - do 2 (apply replace_byte_keeps_absent; [reflexivity|]).
    now apply replace_byte_removes.
  - apply replace_byte_keeps_absent; [reflexivity|].
    now apply replace_byte_removes.
  - now apply replace_byte_removes.
Qed.

(** C7: the key that is looked up is the upper case of the prefix joined
    by an underscore (when the prefix is not empty) to the path in which
    every [.] and [[] has become [_] and every []] is gone, none of the
    three bytes being left; on ASCII input that is the upper case of the
    prefix, an underscore, and the upper case of the rewritten path.  The
    path [loggers[0].log_level] gives [LOGGERS_0_LOG_LEVEL] without a
    prefix and [MYAPP_LOGGERS_0_LOG_LEVEL] with the prefix [myapp]. *)
Theorem C7_formatEnvKey (lib : GoLib) (c : confucius) (key : string) :
  formatEnvKey lib c key
  = strings_ToUpper lib (join_prefix (envPrefix c) (normalize_path key))
  /\ (has_byte "." (normalize_path key) = false
      /\ has_byte "[" (normalize_path key) = false
      /\ has_byte "]" (normalize_path key) = false)
  /\ (isASCII (envPrefix c) = true -> isASCII key = true ->
      formatEnvKey lib c key
      = join_prefix (map_bytes upper_byte (envPrefix c))
          (map_bytes upper_byte (normalize_path key)))
  /\ formatEnvKey lib defaultConfucius "loggers[0].log_level" = "LOGGERS_0_LOG_LEVEL"
  /\ formatEnvKey lib (with_env "myapp" defaultConfucius) "loggers[0].log_level"
     = "MYAPP_LOGGERS_0_LOG_LEVEL".
Proof.
  assert (H1 : formatEnvKey lib c key
               = strings_ToUpper lib (join_prefix (envPrefix c) (normalize_path key))).
  { unfold formatEnvKey. now rewrite replacer_is_normalize, join_prefix_eqb. }
  split; [exact H1|]. split; [apply normalize_path_clean|].
  split; [|split; reflexivity].
  intros Hp Hk. rewrite H1. unfold strings_ToUpper.
  pose proof (isASCII_normalize_path key Hk) as Hn.
  destruct (envPrefix c) as [|x p] eqn:Ep; simpl join_prefix.
  - now rewrite Hn.
  - change (String x p +:+ "_" +:+ normalize_path key)
      with (String x (p +:+ "_" +:+ normalize_path key)).
    simpl in Hp. apply andb_true_iff in Hp as [Hx Hp].
    simpl isASCII. rewrite Hx, !isASCII_app, Hp, Hn. simpl.
    now rewrite !map_bytes_app.
Qed.

(** ** The load orchestrator *)

Lemma Split_no_sep (s : string) (sep : ascii) :
  has_byte sep s = false -> strings_Split s sep = [s].
Proof.
  induction s as [|x s IH]; simpl; [reflexivity|].
  intros H. apply orb_false_iff in H as [Hx Hs].
  rewrite Hx, (IH Hs). reflexivity.
Qed.

Lemma Split_nonempty (s : string) (sep : ascii) : strings_Split s sep <> [].
Proof.
  induction s as [|x s IH]; simpl; [discriminate|].
  destruct (Ascii.eqb x sep); [discriminate|].
  destruct (strings_Split s sep); [contradiction|discriminate].
Qed.

Lemma Split_with_sep (s : string) (sep : ascii) :
  has_byte sep s = true ->
  exists part0 part1 more, strings_Split s sep = part0 :: part1 :: more.
Proof.
  induction s as [|x s IH]; simpl; [discriminate|].
  destruct (Ascii.eqb x sep) eqn:E; simpl.
  - intros _. pose proof (Split_nonempty s sep) as Hn.
    destruct (strings_Split s sep) as [|h tl]; [contradiction|]. eauto.
  - intros H. destruct (IH H) as (p0 & p1 & more & ->). eauto.
Qed.

Lemma profileFileName_no_dot (c : confucius) (profile : string) :
  has_byte "." (filename c) = false ->
  profileFileName c profile = Panic "index out of range [1]".
Proof. intros H. unfold profileFileName. now rewrite (Split_no_sep _ _ H). Qed.

Lemma profileFileName_parts (c : confucius) (profile part0 part1 : string) (more : list string) :
  strings_Split (filename c) "." = part0 :: part1 :: more ->
  profileFileName c profile
  = Ret (strings_ReplaceAll
           (strings_ReplaceAll (strings_ReplaceAll (profileLayout c) "config" part0)
              "test" profile)
           "yaml" part1).
Proof. intros H. unfold profileFileName. now rewrite H. Qed.

Section OrchestratorFacts.

Variable lib : GoLib.
Variable stringSlice : string -> list string.
Variable isZero : forall t : type, denote t -> bool.
Variable env : gmap string string.
Variable W : World.

Local Abbreviation load := (Load lib stringSlice isZero env W).
Local Abbreviation load_profiles := (Load_profiles lib stringSlice isZero env W).
Local Abbreviation load_finish := (Load_finish lib stringSlice isZero env W).

(** With a reader, [Load] goes on whatever the search for the primary
    file and its decoding returned as errors. *)
Lemma Load_with_reader c cfg :
  useReader c = true -> isStructPtr W cfg = true ->
  load c cfg
  = match decodeReader W c (readerConfig c) (readerDecoder c) with
    | (_, Some e) => Failed e
    | (readerVals, None) =>
        match mergo_Merge W readerVals (decodeFile W c (findCfgFile W c).1).1 with
        | Err e => Failed e
        | Ok merged => load_profiles c (profiles c) merged cfg
        end
    end.
Proof.
  intros Hr Hs. unfold Load, unless_reader. rewrite Hs, Hr. simpl.
  destruct (findCfgFile W c) as [file err]. simpl.
  destruct (decodeFile W c file) as [vals err']. reflexivity.
Qed.

(** Without a reader, the errors of the search and of the decoding are
    returned. *)
Lemma Load_without_reader c cfg :
  useReader c = false -> isStructPtr W cfg = true ->
  load c cfg
  = match (findCfgFile W c).2 with
    | Some e => Failed e
    | None =>
        match decodeFile W c (findCfgFile W c).1 with
        | (_, Some e) => Failed e
        | (vals, None) => load_profiles c (profiles c) vals cfg
        end
    end.
Proof.
  intros Hr Hs. unfold Load, unless_reader. rewrite Hs, Hr. simpl.
  destruct (findCfgFile W c) as [file [e|]]; simpl; [reflexivity|].
  destruct (decodeFile W c file) as [vals [e|]]; reflexivity.
Qed.

Lemma decodeReader_error_nil c reader decoder e :
  (decodeReader W c reader decoder).2 = Some e ->
  (decodeReader W c reader decoder).1 = nil_map W.
Proof.
  unfold decodeReader.
  repeat match goal with
         | |- context [if ?b then _ else _] => destruct b
         | |- context [match ?r with Ok _ => _ | Err _ => _ end] => destruct r
         end; simpl; congruence.
Qed.

Lemma decodeFile_error_nil c file e :
  (decodeFile W c file).2 = Some e -> (decodeFile W c file).1 = nil_map W.
Proof.
  unfold decodeFile. destruct (os_Open W file); [|reflexivity].
  apply decodeReader_error_nil.
Qed.

Lemma decodeReader_sentinel_free c reader decoder e :
  World_sentinel_free env W ->
  (decodeReader W c reader decoder).2 = Some e -> errors_Is_ErrFileNotFound e = false.
Proof.
  intros (_ & Hy & Hj & Ht & _). unfold decodeReader.
  destruct (str_in decoder [".yaml"; ".yml"]).
  { destruct (yaml_Decode W reader) eqn:E; simpl; [discriminate|].
    intros [= <-]. eauto. }
  destruct (String.eqb decoder ".json").
  { destruct (json_Decode W reader) eqn:E; simpl; [discriminate|].
    intros [= <-]. eauto. }
  destruct (String.eqb decoder ".toml").
  { destruct (toml_LoadReader W reader) eqn:E; simpl; [discriminate|].
    intros [= <-]. eauto. }
  simpl. intros [= <-]. reflexivity.
Qed.

Lemma Load_finish_sentinel_free c vals cfg e :
  World_sentinel_free env W ->
  load_finish c vals cfg = Failed e -> errors_Is_ErrFileNotFound e = false.
Proof.
  intros (_ & _ & _ & _ & _ & Hm). unfold Load_finish, decodeMap.
  destruct (mapstructure_Decode W _ _ _ _ _) eqn:E.
  - destruct (processCfg _ _ _ _ _ _) as [leaves [errs|]]; discriminate.
  - intros [= <-]. eauto.
Qed.

Lemma Load_profiles_no_dot c profile rest vals cfg :
  has_byte "." (filename c) = false ->
  load_profiles c (profile :: rest) vals cfg = Aborted "index out of range [1]".
Proof.
  intros H. simpl. unfold findProfileCfgFile.
  now rewrite (profileFileName_no_dot c profile H).
Qed.

End OrchestratorFacts.

(** In the profile loop the sentinel comes from a profile whose file is
    in none of the directories, and from nowhere else. *)
Lemma profile_values_sentinel (env : gmap string string) (W : World) (c : confucius)
    (ps : list string) (vals : tree W) (e : error) :
  World_sentinel_free env W ->
  profile_values W c ps vals = Ret (Err e) ->
  errors_Is_ErrFileNotFound e = true ->
  exists p file,
    In p ps /\ profileFileName c p = Ret file
    /\ findInDirs W (dirs c) file = None
    /\ e = Errorf "%s: %w" [ArgS file; ArgW ErrFileNotFound].
Proof.
  intros HW. revert vals; induction ps as [|p ps IH]; intros vals; simpl; [discriminate|].
  unfold findProfileCfgFile.
  destruct (profileFileName c p) as [file|msg] eqn:Ef; [|discriminate].
  destruct (findInDirs W (dirs c) file) as [q|] eqn:Eq.
  - destruct (decodeFile W c q) as [pv [e'|]].
    + intros [= <-]. discriminate.
    + destruct (mergo_Merge W vals pv) eqn:Em.
      * intros H1 H2. destruct (IH _ H1 H2) as (p' & file' & Hin & H).
        exists p', file'. split; [now right|exact H].
      * intros [= <-] Hs. destruct HW as (_ & _ & _ & _ & Hm & _).
        rewrite (Hm _ _ _ Em) in Hs. discriminate.
  - intros [= <-] _. exists p, file. repeat split; auto.
Qed.

(** The decoding of the file that [findCfgFile] has not found gives
    the nil map. *)
Lemma decodeFile_not_found_nil (W : World) (c : confucius) (e : error) :
  (findCfgFile W c).2 = Some e \/ (decodeFile W c (findCfgFile W c).1).2 = Some e ->
  (decodeFile W c (findCfgFile W c).1).1 = nil_map W.
Proof.
  intros [H|H]; [|now apply decodeFile_error_nil with (e := e)].
  unfold findCfgFile in *.
  destruct (findInDirs W (dirs c) (filename c)); [discriminate|]. simpl.
  unfold decodeFile. destruct (os_Open W EmptyString); reflexivity.
Qed.

(** C9, as stated, fails: with a reader the sentinel is surfaced when
    the file of a profile is missing.  Here the primary file is there and
    the file of the profile [test] is not. *)
Lemma C9_missing_profile_surfaces_sentinel :
  let c := with_reader "host: 127.0.0.1" ".yaml"
             (with_file "config.yaml" ["test"] defaultConfucius) in
  let W := world_files [("config.yaml", "host: localhost")] in
  useReader c = true
  /\ fileExists W "config.yaml" = true
  /\ Load lib_reject stringSlice_spec isZero_spec ∅ W c []
     = Failed (Errorf "%s: %w" [ArgS "config.test.yaml"; ArgW ErrFileNotFound])
  /\ errors_Is_ErrFileNotFound (Errorf "%s: %w" [ArgS "config.test.yaml"; ArgW ErrFileNotFound])
     = true.
Proof. repeat split. Qed.

(** C9, amended: with a reader, [Load] does not return the errors of the
    search for the primary file and of its decoding, which the same load
    without the reader returns: it decodes the reader, merges into the
    result the values of the file (the nil map when the file was missing
    or did not decode) and goes on with the profiles.  With collaborators
    that do not return the sentinel, an error of [Load] is the
    file-not-found sentinel only when it is that of a profile whose file
    is in none of the directories; with no profile it never is. *)
Theorem C9_reader_discards_file_errors
    (lib : GoLib) (stringSlice : string -> list string)
    (isZero : forall t : type, denote t -> bool) (env : gmap string string)
    (W : World) (c : confucius) (cfg : Cfg W) :
  useReader c = true ->
  isStructPtr W cfg = true ->
  Load lib stringSlice isZero env W c cfg
  = match decodeReader W c (readerConfig c) (readerDecoder c) with
    | (_, Some e) => Failed e
    | (readerVals, None) =>
        match mergo_Merge W readerVals (decodeFile W c (findCfgFile W c).1).1 with
        | Err e => Failed e
        | Ok merged => Load_profiles lib stringSlice isZero env W c (profiles c) merged cfg
        end
    end
  /\ Load_values W c cfg
     = match decodeReader W c (readerConfig c) (readerDecoder c) with
       | (_, Some e) => Ret (Err e)
       | (readerVals, None) =>
           match mergo_Merge W readerVals (decodeFile W c (findCfgFile W c).1).1 with
           | Err e => Ret (Err e)
           | Ok merged => profile_values W c (profiles c) merged
           end
       end
  /\ (forall e, (decodeFile W c (findCfgFile W c).1).2 = Some e ->
        (decodeFile W c (findCfgFile W c).1).1 = nil_map W)
  /\ (forall e,
        (findCfgFile W c).2 = Some e
        \/ ((findCfgFile W c).2 = None /\ (decodeFile W c (findCfgFile W c).1).2 = Some e) ->
        Load lib stringSlice isZero env W (without_reader c) cfg = Failed e
        /\ Load lib stringSlice isZero env W c cfg
           = match decodeReader W c (readerConfig c) (readerDecoder c) with
             | (_, Some e') => Failed e'
             | (readerVals, None) =>
                 match mergo_Merge W readerVals (nil_map W) with
                 | Err e' => Failed e'
                 | Ok merged =>
                     Load_profiles lib stringSlice isZero env W c (profiles c) merged cfg
                 end
             end)
  /\ (World_sentinel_free env W ->
      forall e, Load lib stringSlice isZero env W c cfg = Failed e ->
        errors_Is_ErrFileNotFound e = true ->
        exists p file,
          In p (profiles c) /\ profileFileName c p = Ret file
          /\ findInDirs W (dirs c) file = None
          /\ e = Errorf "%s: %w" [ArgS file; ArgW ErrFileNotFound])
  /\ (World_sentinel_free env W -> profiles c = [] ->
      forall e, Load lib stringSlice isZero env W c cfg = Failed e ->
        errors_Is_ErrFileNotFound e = false).
Proof.
  intros Hr Hs.
  pose proof (Load_with_reader lib stringSlice isZero env W c cfg Hr Hs) as HL.
  assert (HV : Load_values W c cfg
               = match decodeReader W c (readerConfig c) (readerDecoder c) with
                 | (_, Some e) => Ret (Err e)
                 | (readerVals, None) =>
                     match mergo_Merge W readerVals (decodeFile W c (findCfgFile W c).1).1 with
                     | Err e => Ret (Err e)
                     | Ok merged => profile_values W c (profiles c) merged
                     end
                 end).
  { unfold Load_values, unless_reader. rewrite Hs, Hr. simpl.
    destruct (findCfgFile W c) as [file err]. simpl.
    destruct (decodeFile W c file) as [vals err']. reflexivity. }
  assert (Hsent : World_sentinel_free env W ->
                  forall e, Load lib stringSlice isZero env W c cfg = Failed e ->
                    errors_Is_ErrFileNotFound e = true ->
                    exists p file,
                      In p (profiles c) /\ profileFileName c p = Ret file
                      /\ findInDirs W (dirs c) file = None
                      /\ e = Errorf "%s: %w" [ArgS file; ArgW ErrFileNotFound]).
  { intros HW e. rewrite (Load_as_values lib stringSlice isZero env W c cfg), HV.
    destruct (decodeReader W c (readerConfig c) (readerDecoder c)) as [rv [e'|]] eqn:Ed.
    - intros [= <-] Hi.
      rewrite (decodeReader_sentinel_free env W c (readerConfig c) (readerDecoder c) e' HW) in Hi;
        [discriminate|now rewrite Ed].
    - destruct (mergo_Merge W rv _) eqn:Em.
      + destruct (profile_values W c (profiles c) a) as [[vals|e']|msg] eqn:Ep;
          [|intros [= <-] Hi; eapply profile_values_sentinel; eauto|discriminate].
        intros Hf Hi.
        rewrite (Load_finish_sentinel_free lib stringSlice isZero env W c vals cfg e HW Hf) in Hi.
        discriminate.
      + intros [= <-] Hi. destruct HW as (_ & _ & _ & _ & Hm & _).
        rewrite (Hm _ _ _ Em) in Hi. discriminate. }
  split; [exact HL|]. split; [exact HV|]. split; [|split; [|split; [exact Hsent|]]].
  - intros e. apply decodeFile_error_nil.
  - intros e He. split.
    + rewrite (Load_without_reader lib stringSlice isZero env W (without_reader c) cfg eq_refl Hs).
      change (findCfgFile W (without_reader c)) with (findCfgFile W c).
      change (decodeFile W (without_reader c)) with (decodeFile W c).
      destruct He as [He|[He1 He2]].
      * now rewrite He.
      * rewrite He1. destruct (decodeFile W c (findCfgFile W c).1) as [vals err].
        simpl in He2. now subst err.
    + rewrite HL, (decodeFile_not_found_nil W c e); [reflexivity|].
      destruct He as [He|[_ He]]; auto.
  - intros HW Hp e He.
    destruct (errors_Is_ErrFileNotFound e) eqn:Hi; [|reflexivity].
    destruct (Hsent HW e He Hi) as (p & file & Hin & _).
    rewrite Hp in Hin. destruct Hin.
Qed.

Lemma C9_reader_discards_file_errors_witness :
  let c := with_reader "host: 127.0.0.1" ".yaml" defaultConfucius in
  let f := {| t := StringT; v := "127.0.0.1"; path := "host";
              required := true; setDefault := false; defaultVal := EmptyString |} in
  let W := world_files [("other.yaml", "host: localhost")] in
  (findCfgFile W c).2 = Some (Errorf "%s: %w" [ArgS "config.yaml"; ArgW ErrFileNotFound])
  /\ Load lib_reject stringSlice_spec isZero_spec ∅ W (without_reader c) [f]
     = Failed (Errorf "%s: %w" [ArgS "config.yaml"; ArgW ErrFileNotFound])
  /\ Load_values W c [f] = Ret (Ok ["host: 127.0.0.1"])
  /\ Load lib_reject stringSlice_spec isZero_spec ∅ W c [f] = Loaded [f].
Proof.
  intros c f W.
  pose proof (C9_reader_discards_file_errors lib_reject stringSlice_spec isZero_spec ∅ W c [f]
                eq_refl eq_refl) as (_ & HV & _ & H4 & _).
  split; [reflexivity|]. split; [|split].
  - apply (H4 (Errorf "%s: %w" [ArgS "config.yaml"; ArgW ErrFileNotFound])).
    left. reflexivity.
  - refine (eq_trans HV _). reflexivity.
  - refine (eq_trans (proj2 (H4 (Errorf "%s: %w" [ArgS "config.yaml"; ArgW ErrFileNotFound])
                               (or_introl eq_refl))) _).
    reflexivity.
Defined.

Lemma findInDirs_joined (W : World) (ds : list string) (file p : string) :
  findInDirs W ds file = Some p -> exists d, In d ds /\ p = filepath_Join W d file.
Proof.
  induction ds as [|d ds IH]; simpl; [discriminate|].
  destruct (fileExists W (filepath_Join W d file)).
  - intros [= <-]. exists d. split; [now left|reflexivity].
  - intros H. destruct (IH H) as (d' & Hd & ->). exists d'. split; [now right|reflexivity].
Qed.

(** C10, as stated, fails: with a profile and the primary file name
    [config], which has no dot, a load without a reader does not abort.
    When the file is there it returns the error of the decoding, which
    finds no extension; when it is not, the file-not-found error. *)
Lemma C10_no_reader_returns_error :
  let c := with_file "config" ["test"] defaultConfucius in
  let W := world_files [("config", "host: localhost")] in
  has_byte "." (filename c) = false
  /\ profiles c = ["test"]
  /\ useReader c = false
  /\ fileExists W "config" = true
  /\ Load lib_reject stringSlice_spec isZero_spec ∅ W c []
     = Failed (Errorf "unsupported file extension %s" [ArgS EmptyString])
  /\ Load lib_reject stringSlice_spec isZero_spec ∅ world_empty c []
     = Failed (Errorf "%s: %w" [ArgS "config"; ArgW ErrFileNotFound]).
Proof. repeat split. Qed.

(** C10, amended: [profileFileName] splits the primary file name on the
    dot and reads the first two parts, so with a file name without a dot
    it aborts on the second, and so does the profile loop of [Load] at
    its first profile.  [Load] itself aborts only when it gets to that
    loop, and otherwise returns the error of the step that fails before:
    the destination that is no pointer to a struct; with a reader, the
    decoding of the reader and the merge; without one, the search for the
    primary file and its decoding.  Without a reader the loop is not
    reached when the file name joined to a directory has no extension,
    as a name without a dot gives: the file is missing, or does not open,
    or is refused for its extension, and [Load] returns that error.  With
    a dot the result of [profileFileName] is the layout in which
    [config], then [test], then [yaml] have been replaced wherever they
    occur by the first part, the profile and the second part. *)
Theorem C10_profile_file_name
    (lib : GoLib) (stringSlice : string -> list string)
    (isZero : forall t : type, denote t -> bool) (env : gmap string string)
    (W : World) (c : confucius) (cfg : Cfg W) (profile : string) (rest : list string) :
  has_byte "." (filename c) = false ->
  profiles c = profile :: rest ->
  (forall p, profileFileName c p = Panic "index out of range [1]")
  /\ (forall vals,
        Load_profiles lib stringSlice isZero env W c (profiles c) vals cfg
        = Aborted "index out of range [1]")
  /\ Load lib stringSlice isZero env W c cfg
     = (if negb (isStructPtr W cfg) then Failed (Errorf "cfg must be a pointer to a struct" [])
        else if useReader c then
          match decodeReader W c (readerConfig c) (readerDecoder c) with
          | (_, Some e) => Failed e
          | (readerVals, None) =>
              match mergo_Merge W readerVals (decodeFile W c (findCfgFile W c).1).1 with
              | Err e => Failed e
              | Ok _ => Aborted "index out of range [1]"
              end
          end
        else
          match (findCfgFile W c).2 with
          | Some e => Failed e
          | None =>
              match (decodeFile W c (findCfgFile W c).1).2 with
              | Some e => Failed e
              | None => Aborted "index out of range [1]"
              end
          end)
  /\ (useReader c = false ->
      (forall d, In d (dirs c) ->
         filepath_Ext (filepath_Join W d (filename c)) = EmptyString) ->
      exists e,
        Load lib stringSlice isZero env W c cfg = Failed e
        /\ (e = Errorf "cfg must be a pointer to a struct" []
            \/ e = Errorf "%s: %w" [ArgS (filename c); ArgW ErrFileNotFound]
            \/ (exists p, os_Open W p = Err e)
            \/ e = Errorf "unsupported file extension %s" [ArgS (filepath_Ext (filename c))]))
  /\ (forall (c' : confucius) (p part0 part1 : string) (more : list string),
        strings_Split (filename c') "." = part0 :: part1 :: more ->
        profileFileName c' p
        = Ret (strings_ReplaceAll
                 (strings_ReplaceAll (strings_ReplaceAll (profileLayout c') "config" part0)
                    "test" p)
                 "yaml" part1)).
Proof.
  intros Hdot Hps.
  assert (HP : forall vals,
             Load_profiles lib stringSlice isZero env W c (profiles c) vals cfg
             = Aborted "index out of range [1]").
  { intros vals. rewrite Hps. now apply Load_profiles_no_dot. }
  assert (HLoad : Load lib stringSlice isZero env W c cfg
     = (if negb (isStructPtr W cfg) then Failed (Errorf "cfg must be a pointer to a struct" [])
        else if useReader c then
          match decodeReader W c (readerConfig c) (readerDecoder c) with
          | (_, Some e) => Failed e
          | (readerVals, None) =>
              match mergo_Merge W readerVals (decodeFile W c (findCfgFile W c).1).1 with
              | Err e => Failed e
              | Ok _ => Aborted "index out of range [1]"
              end
          end
        else
          match (findCfgFile W c).2 with
          | Some e => Failed e
          | None =>
              match (decodeFile W c (findCfgFile W c).1).2 with
              | Some e => Failed e
              | None => Aborted "index out of range [1]"
              end
          end)).
  { destruct (isStructPtr W cfg) eqn:Hs; simpl.
    2:{ unfold Load. now rewrite Hs. }
    destruct (useReader c) eqn:Hr.
    - rewrite (Load_with_reader lib stringSlice isZero env W c cfg Hr Hs).
      destruct (decodeReader W c _ _) as [rv [e|]]; [reflexivity|].
      destruct (mergo_Merge W rv _); [apply HP|reflexivity].
    - rewrite (Load_without_reader lib stringSlice isZero env W c cfg Hr Hs).
      destruct (findCfgFile W c).2; [reflexivity|].
      destruct (decodeFile W c _) as [vals [e|]]; [reflexivity|apply HP]. }
  split; [intros p; now apply profileFileName_no_dot|].
  split; [exact HP|]. split; [exact HLoad|]. split.
  - intros Hr Hext. rewrite HLoad, Hr.
    destruct (negb (isStructPtr W cfg)); [eauto|].
    unfold findCfgFile.
    destruct (findInDirs W (dirs c) (filename c)) as [p|] eqn:Ef; simpl; [|eauto 6].
    apply findInDirs_joined in Ef as (d & Hd & ->).
    unfold decodeFile.
    destruct (os_Open W (filepath_Join W d (filename c))) as [fd|e] eqn:Eo; simpl; [|eauto 8].
    rewrite (Hext d Hd). simpl. eauto 8.
  - intros c' p part0 part1 more. apply profileFileName_parts.
Qed.

Lemma C10_profile_file_name_witness :
  let c := with_file "config" ["test"] defaultConfucius in
  let W := world_files [("config", "host: localhost")] in
  Load lib_reject stringSlice_spec isZero_spec ∅ W
    (with_reader "host: 127.0.0.1" ".yaml" c) []
  = Aborted "index out of range [1]"
  /\ Load lib_reject stringSlice_spec isZero_spec ∅ W c []
     = Failed (Errorf "unsupported file extension %s" [ArgS EmptyString])
  /\ profileFileName (with_file "server.json" ["test"] defaultConfucius) "test"
     = Ret "server.test.json"
  /\ exists e, Load lib_reject stringSlice_spec isZero_spec ∅ W c [] = Failed e.
Proof.
  intros c W. split; [|split; [|split]].
  4:{ destruct (proj1 (proj2 (proj2 (proj2
                (C10_profile_file_name lib_reject stringSlice_spec isZero_spec ∅ W
                   c [] "test" [] eq_refl eq_refl)))) eq_refl) as (e & He & _).
      - intros d [<-|[]]. reflexivity.
      - exists e. exact He. }
  - refine (eq_trans (proj1 (proj2 (proj2
              (C10_profile_file_name lib_reject stringSlice_spec isZero_spec ∅ W
                 (with_reader "host: 127.0.0.1" ".yaml" c) [] "test" [] eq_refl eq_refl)))) _).
    reflexivity.
  - refine (eq_trans (proj1 (proj2 (proj2
              (C10_profile_file_name lib_reject stringSlice_spec isZero_spec ∅ W
                 c [] "test" [] eq_refl eq_refl)))) _).
    reflexivity.
  - refine (eq_trans (proj2 (proj2 (proj2 (proj2
              (C10_profile_file_name lib_reject stringSlice_spec isZero_spec
                 ∅ W c [] "test" [] eq_refl eq_refl))))
              (with_file "server.json" ["test"] defaultConfucius) "test" "server" "json" [] _) _);
      reflexivity.
Defined.

(** ** The substitution *)

Lemma app_cons (a : ascii) (s1 s2 : string) : String a s1 +:+ s2 = String a (s1 +:+ s2).
Proof. reflexivity. Qed.

Lemma app_nil_l_str (s : string) : EmptyString +:+ s = s.
Proof. reflexivity. Qed.

Lemma app_assoc_str (s1 s2 s3 : string) : (s1 +:+ s2) +:+ s3 = s1 +:+ s2 +:+ s3.
Proof. induction s1 as [|a s1 IH]; [reflexivity|]. now rewrite !app_cons, IH. Qed.

Lemma length_app_str (s1 s2 : string) :
  String.length (s1 +:+ s2) = (String.length s1 + String.length s2)%nat.
Proof. induction s1 as [|a s1 IH]; [reflexivity|]. rewrite app_cons. simpl. now rewrite IH. Qed.

Lemma prefix_cons_cons (a b : ascii) (s1 s2 : string) :
  String.prefix (String a s1) (String b s2) = Ascii.eqb a b && String.prefix s1 s2.
Proof.
  simpl. destruct (ascii_dec a b) as [->|n].
  - now rewrite Ascii.eqb_refl.
  - apply Ascii.eqb_neq in n. now rewrite n.
Qed.

Lemma prefix_app (s r : string) : String.prefix s (s +:+ r) = true.
Proof.
  induction s as [|a s IH]; [now destruct r|].
  now rewrite app_cons, prefix_cons_cons, Ascii.eqb_refl.
Qed.

Lemma token_unfold (b : string) : token b = String "$" (String "{" (b +:+ "}")).
Proof. reflexivity. Qed.

Lemma ReplaceAll_skip (a r old new : string) :
  ReplaceAll_from (String.length a) (a +:+ r) old new = ReplaceAll_from O r old new.
Proof. induction a as [|c a IH]; [reflexivity|]. rewrite app_cons. simpl. exact IH. Qed.

Lemma no_token_start_cons (c : ascii) (s : string) :
  no_token_start (String c s) = true ->
  no_token_start s = true
  /\ (Ascii.eqb c "$" = false
      \/ exists c' s', s = String c' s' /\ Ascii.eqb c' "{" = false).
Proof.
  simpl. intros H. apply andb_true_iff in H as [H Hs]. split; [exact Hs|].
  apply negb_true_iff, andb_false_iff in H as [H|H]; [now left|].
  destruct s as [|c' s']; [discriminate|]. right. eauto.
Qed.

Lemma no_token_start_brace (s : string) :
  no_token_start (String "{" s) = no_token_start s.
Proof. reflexivity. Qed.

(** No token starts at a byte of text in which no token can start. *)
Lemma prefix_token_start (o r : string) (c : ascii) (s : string) :
  no_token_start (String c s) = true ->
  String.prefix (String "$" (String "{" o)) (String c (s +:+ r)) = false.
Proof.
  intros H. apply no_token_start_cons in H as [_ [H|(c' & s' & -> & H)]].
  - now rewrite prefix_cons_cons, Ascii.eqb_sym, H.
  - now rewrite app_cons, !prefix_cons_cons, (Ascii.eqb_sym "{" c'), H, andb_false_r.
Qed.

Lemma ReplaceAll_lit (s r o new : string) :
  no_token_start s = true ->
  ReplaceAll_from O (s +:+ r) (String "$" (String "{" o)) new
  = s +:+ ReplaceAll_from O r (String "$" (String "{" o)) new.
Proof.
  induction s as [|c s IH]; [reflexivity|].
  intros H. pose proof (prefix_token_start o r c s H) as Hp.
  apply no_token_start_cons in H as [Hs _].
  rewrite !app_cons.
  change (ReplaceAll_from O (String c (s +:+ r)) (String "$" (String "{" o)) new)
    with (if String.prefix (String "$" (String "{" o)) (String c (s +:+ r))
          then new +:+ ReplaceAll_from (String.length (String "$" (String "{" o)) - 1)
                         (s +:+ r) (String "$" (String "{" o)) new
          else String c (ReplaceAll_from O (s +:+ r) (String "$" (String "{" o)) new)).
  rewrite Hp. now rewrite IH.
Qed.

Lemma ReplaceAll_hit (c : ascii) (o r new : string) :
  ReplaceAll_from O (String c o +:+ r) (String c o) new
  = new +:+ ReplaceAll_from O r (String c o) new.
Proof.
  rewrite app_cons.
  change (ReplaceAll_from O (String c (o +:+ r)) (String c o) new)
    with (if String.prefix (String c o) (String c (o +:+ r))
          then new +:+ ReplaceAll_from (String.length (String c o) - 1) (o +:+ r) (String c o) new
          else String c (ReplaceAll_from O (o +:+ r) (String c o) new)).
  rewrite prefix_cons_cons, Ascii.eqb_refl, prefix_app. simpl.
  now rewrite Nat.sub_0_r, ReplaceAll_skip.
Qed.

Lemma prefix_body_inj (b b' r : string) :
  has_byte "}" b = false -> has_byte "}" b' = false ->
  String.prefix (b +:+ "}") (b' +:+ "}" +:+ r) = true -> b = b'.
Proof.
  revert b'; induction b as [|a b IH]; intros [|x b']; simpl has_byte; intros Hb Hb'.
  - reflexivity.
  - apply orb_false_iff in Hb' as [Hx _].
    rewrite !app_cons, !app_nil_l_str.
    rewrite prefix_cons_cons, Ascii.eqb_sym, Hx. discriminate.
  - apply orb_false_iff in Hb as [Ha _].
    rewrite !app_cons, !app_nil_l_str.
    rewrite prefix_cons_cons, Ha. discriminate.
  - apply orb_false_iff in Hb as [Ha Hb]. apply orb_false_iff in Hb' as [Hx Hb'].
    rewrite !app_cons, prefix_cons_cons. intros H.
    apply andb_true_iff in H as [E H]. apply Ascii.eqb_eq in E. subst x.
    f_equal. eapply IH; eauto.
Qed.

Lemma prefix_token_neq (b b' r : string) :
  has_byte "}" b = false -> has_byte "}" b' = false -> b' <> b ->
  String.prefix (token b) (token b' +:+ r) = false.
Proof.
  intros Hb Hb' Hne. rewrite !token_unfold, !app_cons, !prefix_cons_cons. simpl.
  destruct (String.prefix (b +:+ "}") ((b' +:+ "}") +:+ r)) eqn:E; [|reflexivity].
  rewrite app_assoc_str in E. apply prefix_body_inj in E; auto. congruence.
Qed.

Lemma forallb_cons_true {A} (f : A -> bool) (x : A) (l : list A) :
  forallb f (x :: l) = true -> f x = true /\ forallb f l = true.
Proof. simpl. intros H. now apply andb_true_iff in H. Qed.

Lemma ReplaceAll_render (ps : list piece) (b val : string) :
  forallb piece_reg ps = true -> has_byte "}" b = false ->
  strings_ReplaceAll (render ps) (token b) val = render (map (resolve_token b val) ps).
Proof.
  intros Hps Hb. unfold strings_ReplaceAll.
  induction ps as [|p ps IH]; [reflexivity|].
  apply forallb_cons_true in Hps as [Hp Hps]. specialize (IH Hps).
  destruct p as [s|b']; simpl render; simpl map; simpl render.
  - simpl in Hp.
    rewrite token_unfold, ReplaceAll_lit by exact Hp.
    rewrite <- token_unfold. now rewrite IH.
  - simpl in Hp. apply andb_true_iff in Hp as [Hp Hn].
    apply andb_true_iff in Hp as [Hd Hc].
    apply negb_true_iff in Hc, Hn.
    destruct (String.eqb b' b) eqn:E.
    + apply String.eqb_eq in E. subst b'. simpl render_piece.
      rewrite token_unfold at 1 2. rewrite ReplaceAll_hit. rewrite <- token_unfold.
      now rewrite IH.
    + apply String.eqb_neq in E. simpl render_piece.
      pose proof (prefix_token_neq b b' (render ps) Hb Hc E) as Hpre.
      rewrite (token_unfold b') in *. rewrite !app_cons in *.
      change (ReplaceAll_from O (String "$" (String "{" ((b' +:+ "}") +:+ render ps))) (token b) val)
        with (if String.prefix (token b) (String "$" (String "{" ((b' +:+ "}") +:+ render ps)))
              then val +:+ ReplaceAll_from (String.length (token b) - 1)
                             (String "{" ((b' +:+ "}") +:+ render ps)) (token b) val
              else String "$" (ReplaceAll_from O (String "{" ((b' +:+ "}") +:+ render ps)) (token b) val)).
      rewrite Hpre. f_equal.
      change (String "{" ((b' +:+ "}") +:+ render ps))
        with ((String "{" (b' +:+ "}")) +:+ render ps).
      rewrite (token_unfold b), ReplaceAll_lit.
      * rewrite <- token_unfold. now rewrite IH.
      * now rewrite no_token_start_brace.
Qed.

Lemma FindAll_skip (a r : string) :
  FindAll_from (String.length a) (a +:+ r) = FindAll_from O r.
Proof. induction a as [|c a IH]; [reflexivity|]. rewrite app_cons. simpl. exact IH. Qed.

Lemma match_at_not_dollar (c : ascii) (s : string) :
  Ascii.eqb c "$" = false -> match_at (String c s) = None.
Proof. intros H. unfold match_at. destruct s; [reflexivity|]. now rewrite H. Qed.

Lemma match_at_no_start (c : ascii) (s r : string) :
  no_token_start (String c s) = true -> match_at (String c (s +:+ r)) = None.
Proof.
  intros H. apply no_token_start_cons in H as [_ [H|(c' & s' & -> & H)]].
  - now apply match_at_not_dollar.
  - rewrite app_cons. unfold match_at. now rewrite H, andb_false_r.
Qed.

Lemma FindAll_lit (s r : string) :
  no_token_start s = true -> FindAll_from O (s +:+ r) = FindAll_from O r.
Proof.
  induction s as [|c s IH]; [reflexivity|].
  intros H. pose proof (match_at_no_start c s r H) as Hc.
  apply no_token_start_cons in H as [Hs _].
  rewrite app_cons.
  change (FindAll_from O (String c (s +:+ r)))
    with (match match_at (String c (s +:+ r)) with
          | Some value => (token value, value)
                          :: FindAll_from (String.length value + 2) (s +:+ r)
          | None => FindAll_from O (s +:+ r)
          end).
  rewrite Hc. now apply IH.
Qed.

Lemma match_group_body (b r : string) :
  has_byte "}" b = false -> has_byte newline b = false ->
  match_group (b +:+ "}" +:+ r) = Some b.
Proof.
  induction b as [|c b IH]; [reflexivity|].
  simpl has_byte. intros H1 H2.
  apply orb_false_iff in H1 as [Hc1 Hb1]. apply orb_false_iff in H2 as [Hc2 Hb2].
  rewrite app_cons. simpl. rewrite Hc1, Hc2, IH by assumption. reflexivity.
Qed.

Lemma FindAll_token (b r : string) :
  has_byte "}" b = false -> has_byte newline b = false ->
  FindAll_from O (token b +:+ r) = (token b, b) :: FindAll_from O r.
Proof.
  intros H1 H2. rewrite token_unfold at 1. rewrite !app_cons.
  change (FindAll_from O (String "$" (String "{" ((b +:+ "}") +:+ r))))
    with (match match_group ((b +:+ "}") +:+ r) with
          | Some value => (token value, value)
                          :: FindAll_from (String.length value + 2)
                               (String "{" ((b +:+ "}") +:+ r))
          | None => FindAll_from O (String "{" ((b +:+ "}") +:+ r))
          end).
  rewrite app_assoc_str, match_group_body by assumption.
  f_equal. rewrite <- (app_assoc_str b "}" r).
  change (String "{" ((b +:+ "}") +:+ r)) with ((String "{" (b +:+ "}")) +:+ r).
  replace (String.length b + 2)%nat with (String.length (String "{" (b +:+ "}"))).
  - apply FindAll_skip.
  - simpl. rewrite length_app_str. simpl. lia.
Qed.

Lemma FindAll_render (ps : list piece) :
  forallb piece_reg ps = true ->
  FindAllStringSubmatch (render ps) = map (fun b => (token b, b)) (bodies ps).
Proof.
  unfold FindAllStringSubmatch.
  induction ps as [|p ps IH]; [reflexivity|].
  intros H. apply forallb_cons_true in H as [Hp Hps]. specialize (IH Hps).
  destruct p as [s|b]; simpl render; simpl bodies.
  - simpl in Hp. now rewrite FindAll_lit.
  - simpl in Hp. apply andb_true_iff in Hp as [Hp Hn].
    apply andb_true_iff in Hp as [Hd Hc]. apply negb_true_iff in Hc, Hn.
    rewrite FindAll_token by assumption. simpl. now rewrite IH.
Qed.

Lemma FindAll_from_cons (k : nat) (c : ascii) (s : string) :
  FindAll_from k (String c s)
  = match k with
    | S k' => FindAll_from k' s
    | O =>
        match match_at (String c s) with
        | Some value => (token value, value) :: FindAll_from (String.length value + 2) s
        | None => FindAll_from O s
        end
    end.
Proof. reflexivity. Qed.

Lemma FindAll_from_token (k : nat) (s w value : string) :
  In (w, value) (FindAll_from k s) -> w = token value.
Proof.
  revert k; induction s as [|c s IH]; intros k; [intros []|].
  rewrite FindAll_from_cons.
  destruct k as [|k]; [|apply IH].
  destruct (match_at (String c s)) as [x|]; [|apply IH].
  intros [H|H]; [|eapply IH; eauto]. now inversion H.
Qed.

(** One turn of the loop puts the value of the token in the place of
    every occurrence of its text. *)
Lemma loop_step (env : gmap string string) (whole value : string)
    (rest : list (string * string)) (result : string) :
  value <> EmptyString ->
  replaceEnvironments_loop env ((whole, value) :: rest) result
  = replaceEnvironments_loop env rest
      (strings_ReplaceAll result whole (token_value env value)).
Proof.
  intros Hne. simpl. apply String.eqb_neq in Hne. rewrite Hne.
  unfold token_value. now destruct (os_LookupEnv env _).
Qed.

Lemma loop_error_iff (env : gmap string string) (ms : list (string * string)) (result : string) :
  (replaceEnvironments_loop env ms result).2 <> None
  <-> exists whole, In (whole, EmptyString) ms.
Proof.
  revert result; induction ms as [|[whole value] rest IH]; intros result.
  - simpl. split; [congruence|intros [w []]].
  - destruct (String.eqb value EmptyString) eqn:E.
    + simpl. rewrite E. simpl. apply String.eqb_eq in E. subst value.
      split; [intros _; exists whole; now left|discriminate].
    + apply String.eqb_neq in E. rewrite loop_step by exact E. rewrite IH.
      split; intros [w Hw]; exists w.
      * now right.
      * destruct Hw as [Hw|Hw]; [congruence|exact Hw].
Qed.

Lemma resolve_token_reg (b val : string) (ps : list piece) :
  no_token_start val = true ->
  forallb piece_reg ps = true ->
  forallb piece_reg (map (resolve_token b val) ps) = true.
Proof.
  intros Hv. induction ps as [|p ps IH]; [reflexivity|].
  intros H. apply forallb_cons_true in H as [Hp Hps].
  simpl. rewrite (IH Hps), andb_true_r.
  destruct p as [s|b']; simpl; [exact Hp|].
  destruct (String.eqb b' b); simpl; [exact Hv|exact Hp].
Qed.

Lemma loop_render (env : gmap string string) (bs : list string) (ps : list piece) :
  forallb piece_reg ps = true ->
  (forall b, In b bs ->
     b <> EmptyString /\ has_byte "}" b = false
     /\ no_token_start (token_value env b) = true) ->
  replaceEnvironments_loop env (map (fun b => (token b, b)) bs) (render ps)
  = (render (fold_left (fun ps b => map (resolve_token b (token_value env b)) ps) bs ps), None).
Proof.
  revert ps; induction bs as [|b bs IH]; intros ps Hps Hbs; [reflexivity|].
  destruct (Hbs b (or_introl eq_refl)) as (Hne & Hc & Hv).
  simpl map. rewrite loop_step by exact Hne.
  rewrite ReplaceAll_render by assumption.
  rewrite IH.
  - reflexivity.
  - now apply resolve_token_reg.
  - intros b' Hb'. apply Hbs. now right.
Qed.

Lemma fold_resolve (env : gmap string string) (bs : list string) (ps : list piece) :
  fold_left (fun ps b => map (resolve_token b (token_value env b)) ps) bs ps
  = map (resolved env bs) ps.
Proof.
  revert ps; induction bs as [|b bs IH]; intros ps; simpl.
  - induction ps as [|[s|b'] ps IHp]; simpl; now rewrite <- ?IHp.
  - rewrite IH, map_map. apply map_ext. intros [s|b']; simpl; [reflexivity|].
    destruct (String.eqb b' b) eqn:E; simpl; [|reflexivity].
    apply String.eqb_eq in E. now subst b'.
Qed.

Lemma render_resolved (env : gmap string string) (bs : list string) (ps : list piece) :
  (forall b, In b (bodies ps) -> existsb (String.eqb b) bs = true) ->
  render (map (resolved env bs) ps) = substituted env ps.
Proof.
  induction ps as [|[s|b] ps IH]; intros H; simpl; [reflexivity| |].
  - now rewrite IH.
  - rewrite (H b (or_introl eq_refl)). simpl. rewrite IH; [reflexivity|].
    intros b' Hb'. apply H. now right.
Qed.

Lemma piece_ok_reg (env : gmap string string) (ps : list piece) :
  forallb (piece_ok env) ps = true -> forallb piece_reg ps = true.
Proof.
  induction ps as [|p ps IH]; [reflexivity|].
  intros H. apply forallb_cons_true in H as [Hp Hps].
  simpl. rewrite (IH Hps), andb_true_r.
  destruct p as [s|b]; simpl in *; [exact Hp|].
  repeat (apply andb_true_iff in Hp as [Hp ?]).
  repeat (apply andb_true_iff; split); assumption.
Qed.

Lemma piece_ok_bodies (env : gmap string string) (ps : list piece) (b : string) :
  forallb (piece_ok env) ps = true -> In b (bodies ps) ->
  b <> EmptyString /\ has_byte "}" b = false /\ no_token_start (token_value env b) = true.
Proof.
  induction ps as [|p ps IH]; [intros _ []|].
  intros H. apply forallb_cons_true in H as [Hp Hps].
  destruct p as [s|b']; simpl; [now apply IH|].
  intros [->|Hin]; [|now apply IH].
  simpl in Hp. repeat (apply andb_true_iff in Hp as [Hp ?]).
  repeat match goal with H : negb _ = true |- _ => apply negb_true_iff in H end.
  repeat split; try assumption. now apply String.eqb_neq.
Qed.

Lemma existsb_eqb_In (b : string) (bs : list string) :
  In b bs -> existsb (String.eqb b) bs = true.
Proof.
  intros H. apply existsb_exists. exists b. split; [exact H|apply String.eqb_refl].
Qed.

Lemma replaceEnvironments_render (env : gmap string string) (ps : list piece) :
  forallb (piece_ok env) ps = true ->
  replaceEnvironments env (render ps) = (substituted env ps, None).
Proof.
  intros H. unfold replaceEnvironments.
  rewrite FindAll_render by (eapply piece_ok_reg; eauto).
  rewrite loop_render.
  - rewrite fold_resolve, render_resolved; [reflexivity|].
    intros b. apply existsb_eqb_In.
  - eapply piece_ok_reg; eauto.
  - intros b. now apply piece_ok_bodies.
Qed.

Lemma token_value_name (env : gmap string string) (name : string) :
  has_byte ":" name = false ->
  token_value env name
  = match os_LookupEnv env name with Some val => val | None => EmptyString end.
Proof. intros H. unfold token_value. now rewrite (Split_no_sep _ _ H). Qed.

Lemma Split_app_sep (a b : string) (sep : ascii) :
  has_byte sep a = false ->
  strings_Split (a +:+ String sep b) sep = a :: strings_Split b sep.
Proof.
  induction a as [|c a IH]; simpl has_byte; intros H.
  - rewrite app_nil_l_str. simpl. now rewrite Ascii.eqb_refl.
  - apply orb_false_iff in H as [Hc Ha]. rewrite app_cons. simpl.
    now rewrite Hc, (IH Ha).
Qed.

Lemma token_value_default (env : gmap string string) (name default : string) :
  has_byte ":" name = false -> has_byte ":" default = false ->
  token_value env (name +:+ ":" +:+ default)
  = match os_LookupEnv env name with Some val => val | None => default end.
Proof.
  intros Hn Hd. unfold token_value.
  change (name +:+ ":" +:+ default) with (name +:+ String ":" default).
  now rewrite (Split_app_sep _ _ _ Hn), (Split_no_sep _ _ Hd).
Qed.

(** The default of a token ends at the second colon of its body. *)
Lemma token_value_default_cut (env : gmap string string) (name default more : string) :
  has_byte ":" name = false -> has_byte ":" default = false ->
  token_value env (name +:+ ":" +:+ default +:+ ":" +:+ more)
  = match os_LookupEnv env name with Some val => val | None => default end.
Proof.
  intros Hn Hd. unfold token_value.
  change (name +:+ ":" +:+ default +:+ ":" +:+ more)
    with (name +:+ String ":" (default +:+ String ":" more)).
  now rewrite (Split_app_sep _ _ _ Hn), (Split_app_sep _ _ _ Hd).
Qed.

(** C8, amended: the substitution returns an error exactly when one of
    the tokens it finds is [${}], the token with an empty body; an empty
    name followed by a default is no error.  On an input made of text
    and of tokens, where no dollar of the text is followed by an opening
    brace or ends it, the body of a token is not empty and has no closing
    brace, no newline and no dollar followed by an opening brace, and the
    value of a token is text of the same kind, the tokens found are those
    of the input, the result is the input with every token replaced by
    its value, and there is no error.  The value of [${NAME}] is the
    value of the variable [NAME], or nothing when it is unset; the value
    of [${NAME:default}] is the value of the variable or, when it is
    unset, the default, which ends at the second colon of the body. *)
Theorem C8_replaceEnvironments (env : gmap string string) :
  (forall str,
     (replaceEnvironments env str).2 <> None
     <-> In ("${}", EmptyString) (FindAllStringSubmatch str))
  /\ (forall ps,
        forallb (piece_ok env) ps = true ->
        FindAllStringSubmatch (render ps) = map (fun b => (token b, b)) (bodies ps)
        /\ replaceEnvironments env (render ps) = (substituted env ps, None))
  /\ (forall name,
        has_byte ":" name = false ->
        token_value env name
        = match os_LookupEnv env name with Some val => val | None => EmptyString end)
  /\ (forall name default,
        has_byte ":" name = false -> has_byte ":" default = false ->
        token_value env (name +:+ ":" +:+ default)
        = match os_LookupEnv env name with Some val => val | None => default end)
  /\ (forall name default more,
        has_byte ":" name = false -> has_byte ":" default = false ->
        token_value env (name +:+ ":" +:+ default +:+ ":" +:+ more)
        = match os_LookupEnv env name with Some val => val | None => default end).
Proof.
  repeat split.
  - intros H. apply loop_error_iff in H as [w Hw].
    pose proof (FindAll_from_token _ _ _ _ Hw) as ->. exact Hw.
  - intros H. apply loop_error_iff. eauto.
  - apply FindAll_render. eapply piece_ok_reg; eauto.
  - apply replaceEnvironments_render; assumption.
  - now apply token_value_name.
  - now apply token_value_default.
  - now apply token_value_default_cut.
Qed.

Lemma C8_replaceEnvironments_witness :
  let env : gmap string string := {[ "FOO" := "XXX"; "PRICE" := "$5" ]} in
  replaceEnvironments env "cost $3 or ${PRICE} at /x/${FOO}/z/${BAZ:a}${BAR}${H:::1}"
  = ("cost $3 or $5 at /x/XXX/z/a", None).
Proof.
  intros env.
  apply (proj1 (proj2 (C8_replaceEnvironments env))
           [Lit "cost $3 or "; Tok "PRICE"; Lit " at /x/"; Tok "FOO"; Lit "/z/";
            Tok "BAZ:a"; Tok "BAR"; Tok "H:::1"]).
  vm_compute. reflexivity.
Defined.

(** C8, as stated, fails: in [${:x}] the name is empty, and the
    substitution returns no error; the token is replaced by the
    default.  The default of [${ADDR:127.0.0.1:8080}] is not what
    follows the name: it is cut at the second colon.  And a token is not
    always replaced by the value of its variable: when the value of [A]
    is the text of the token [${B}], the pass for [${B}] replaces it
    too. *)
Lemma C8_empty_name_with_default_is_no_error :
  FindAllStringSubmatch "${:x}" = [("${:x}", ":x")]
  /\ hd EmptyString (strings_Split ":x" ":") = EmptyString
  /\ replaceEnvironments ∅ "${:x}" = ("x", None)
  /\ replaceEnvironments ∅ "${ADDR:127.0.0.1:8080}" = ("127.0.0.1", None)
  /\ replaceEnvironments {[ "A" := "${B}"; "B" := "x" ]} "${A}${B}" = ("xx", None).
Proof. repeat split. Qed.

(** ** The tests of the package, replayed on the model *)

Example test_formatEnvKey_port (lib : GoLib) :
  formatEnvKey lib defaultConfucius "port" = "PORT".
Proof. reflexivity. Qed.

Example test_formatEnvKey_prefix (lib : GoLib) :
  formatEnvKey lib (with_env "myapp" defaultConfucius) "server.host" = "MYAPP_SERVER_HOST"
  /\ formatEnvKey lib (with_env "auth_s" defaultConfucius) "client.http.timeout"
     = "AUTH_S_CLIENT_HTTP_TIMEOUT".
Proof. split; reflexivity. Qed.

Example test_formatEnvKey_nested (lib : GoLib) :
  formatEnvKey lib defaultConfucius "nested[1].slice[2].twice" = "NESTED_1_SLICE_2_TWICE".
Proof. reflexivity. Qed.

Example test_replaceEnvironments :
  let env : gmap string string := {[ "FOO" := "XXX"; "BAR" := "YYY" ]} in
  replaceEnvironments env "/x/y/${BAZ:a}" = ("/x/y/a", None)
  /\ replaceEnvironments env "/x/y/z" = ("/x/y/z", None)
  /\ replaceEnvironments env "/x/y/${FOO}" = ("/x/y/XXX", None)
  /\ replaceEnvironments env "/x/y/${BAZ}" = ("/x/y/", None)
  /\ replaceEnvironments env "/x/y/${BAZ:}" = ("/x/y/", None)
  /\ replaceEnvironments env "/x/y/${}"
     = ("/x/y/${}", Some (Errorf "environment name is missing" []))
  /\ replaceEnvironments env "/x/y/${FOO}/z/${BAR}" = ("/x/y/XXX/z/YYY", None).
Proof. repeat split; vm_compute; reflexivity. Qed.

Example test_setValue :
  let set := setValue lib_reject stringSlice_spec defaultConfucius in
  set (PtrT StringT) None "bat" = (Some "bat", None)
  /\ set (SliceT (IntT KInt)) [] "5" = ([5], None)
  /\ set (IntT KInt) 0 "-8" = (-8, None)
  /\ set BoolT false "true" = (true, None)
  /\ set BoolT false "yes" = (false, Some (NumError "ParseBool" "yes" ErrSyntax))
  /\ set (UintT KUint) 0 "42" = (42, None)
  /\ set StringT EmptyString "bat" = ("bat", None)
  /\ set (OtherT KInvalid) 0 "empty"
     = (0, Some (Errorf "unsupported type %s" [ArgKind reflect.Invalid]))
  /\ set StructT 0 "foo" = (0, Some (Errorf "unsupported type %s" [ArgKind reflect.Struct])).
Proof. repeat split. Qed.

Example test_setSlice :
  let set := setSlice lib_reject stringSlice_spec defaultConfucius in
  set (IntT KInt) [] "[5,10,15]" = ([5; 10; 15], None)
  /\ set (IntT KInt) [] "5,10,15" = ([5; 10; 15], None)
  /\ set (UintT KUint) [] "[5,10,15,20,25]" = ([5; 10; 15; 20; 25], None)
  /\ set StringT [] "[a,b,c,d]" = (["a"; "b"; "c"; "d"], None)
  /\ set (UintT KUint) [] "[-5]" = ([], Some (NumError "ParseUint" "-5" ErrSyntax)).
Proof. repeat split. Qed.

Example test_setDefaultValue :
  setDefaultValue lib_reject stringSlice_spec defaultConfucius BoolT false "true"
  = (false, Some (Errorf "unsupported type: %v" [ArgKind reflect.Bool])).
Proof. reflexivity. Qed.

Example test_processField :
  let run := processField lib_reject stringSlice_spec isZero_spec in
  let x (val : Z) (req def : bool) (lit : string) :=
    {| t := IntT KInt; v := val; path := "y";
       required := req; setDefault := def; defaultVal := lit |} in
  let s := {| t := StringT; v := "BOYS"; path := "x";
              required := false; setDefault := false; defaultVal := EmptyString |} in
  let i := {| t := IntT KInt; v := 0; path := "I";
              required := false; setDefault := false; defaultVal := EmptyString |} in
  let c := with_env "confucius" defaultConfucius in
  run ∅ defaultConfucius (x 0 false true "10") = (x 10 false true "10", None)
  /\ run ∅ defaultConfucius (x 5 false true "10") = (x 5 false true "10", None)
  /\ (run ∅ defaultConfucius (x 0 false true "not-an-int")).2
     = Some (Errorf "unable to set default: %v"
               [ArgV (NumError "ParseInt" "not-an-int" ErrSyntax)])
  /\ run ∅ defaultConfucius (x 10 true false EmptyString) = (x 10 true false EmptyString, None)
  /\ (run ∅ defaultConfucius (x 0 true false EmptyString)).2
     = Some (Errorf "required validation failed" [])
  /\ (run ∅ defaultConfucius (x 0 true true "10")).2
     = Some (Errorf "field cannot have both a required validation and a default value" [])
  /\ run {[ "CONFUCIUS_X" := "MEN" ]} c s = (with_v s "MEN", None)
  /\ (run {[ "CONFUCIUS_I" := "FIFTY" ]} c i).2
     = Some (Errorf "unable to set from env: %v" [ArgV (NumError "ParseInt" "FIFTY" ErrSyntax)]).
Proof. repeat split; vm_compute; reflexivity. Qed.

Example test_processCfg_slice_elements_set_by_env :
  let b (idx val : string) :=
    {| t := StringT; v := val; path := "A[" +:+ idx +:+ "].B";
       required := true; setDefault := false; defaultVal := EmptyString |} in
  let c_ (idx : string) (val : Z) :=
    {| t := IntT KInt; v := val; path := "A[" +:+ idx +:+ "].C";
       required := false; setDefault := true; defaultVal := "5" |} in
  let env : gmap string string :=
    {[ "A_0_B" := "b0"; "A_1_B" := "b1"; "A_0_C" := "9000" ]} in
  processCfg lib_reject stringSlice_spec isZero_spec env
    (with_env EmptyString defaultConfucius)
    [b "0" "boo"; c_ "0" 0; b "1" "boo"; c_ "1" 0]
  = ([b "0" "b0"; c_ "0" 9000; b "1" "b1"; c_ "1" 5], None).
Proof. vm_compute. reflexivity. Qed.

Example test_profileFileName :
  profileFileName
    (with_file "server.yaml" ["test"] defaultConfucius) "test" = Ret "server.test.yaml"
  /\ profileFileName (with_file "pod.yaml" ["bad"] defaultConfucius) "bad" = Ret "pod.bad.yaml".
Proof. split; reflexivity. Qed.

Example test_Load_FileNotFound :
  let r := Load lib_reject stringSlice_spec isZero_spec ∅ world_empty
             (with_file "abrakadabra" [] defaultConfucius) [] in
  r = Failed (Errorf "%s: %w" [ArgS "abrakadabra"; ArgW ErrFileNotFound])
  /\ errors_Is_ErrFileNotFound (Errorf "%s: %w" [ArgS "abrakadabra"; ArgW ErrFileNotFound])
     = true.
Proof. split; reflexivity. Qed.

(** * Further properties *)

(** ** The search for the files *)

Lemma findInDirs_Some (W : World) (ds : list string) (file p : string) :
  findInDirs W ds file = Some p <->
  exists before dir after,
    ds = (before ++ dir :: after)%list
    /\ p = filepath_Join W dir file
    /\ fileExists W p = true
    /\ forall d, In d before -> fileExists W (filepath_Join W d file) = false.
Proof.
  induction ds as [|d ds IH]; simpl.
  - split; [discriminate|]. intros (before & dir & after & H & _).
    destruct before; discriminate.
  - destruct (fileExists W (filepath_Join W d file)) eqn:E.
    + split.
      * intros [= <-]. exists [], d, ds. repeat split; auto. intros ? [].
      * intros (before & dir & after & H & -> & Hex & Hno).
        destruct before as [|b before]; simpl in H; injection H as -> ->; [reflexivity|].
        rewrite (Hno b (or_introl eq_refl)) in E. discriminate.
    + rewrite IH. split.
      * intros (before & dir & after & -> & -> & Hex & Hno).
        exists (d :: before), dir, after. repeat split; auto.
        intros d' [<-|Hd]; auto.
      * intros (before & dir & after & H & -> & Hex & Hno).
        destruct before as [|b before]; simpl in H; injection H as -> ->.
        -- rewrite Hex in E. discriminate.
        -- exists before, dir, after. repeat split; auto.
           intros d' Hd. apply Hno. now right.
Qed.

Lemma findInDirs_None (W : World) (ds : list string) (file : string) :
  findInDirs W ds file = None <->
  forall d, In d ds -> fileExists W (filepath_Join W d file) = false.
Proof.
  induction ds as [|d ds IH]; simpl.
  - split; [intros _ ? []|reflexivity].
  - destruct (fileExists W (filepath_Join W d file)) eqn:E.
    + split; [discriminate|]. intros H. rewrite (H d (or_introl eq_refl)) in E. discriminate.
    + rewrite IH. split.
      * intros H d' [<-|Hd]; auto.
      * intros H d' Hd. apply H. now right.
Qed.

(** X1: [findCfgFile] returns the file of the first directory, in the
    order of the configuration, that has it; it fails exactly when no
    directory has the file, and then the path is empty and the error
    wraps the file-not-found sentinel. *)
Theorem X1_findCfgFile_first_match (W : World) (c : confucius) :
  (forall p,
     findCfgFile W c = (p, None) <->
     exists before dir after,
       dirs c = (before ++ dir :: after)%list
       /\ p = filepath_Join W dir (filename c)
       /\ fileExists W p = true
       /\ forall d, In d before -> fileExists W (filepath_Join W d (filename c)) = false)
  /\ ((findCfgFile W c).2 <> None <->
      forall d, In d (dirs c) -> fileExists W (filepath_Join W d (filename c)) = false)
  /\ (forall e,
        (findCfgFile W c).2 = Some e ->
        findCfgFile W c = (EmptyString, Some e)
        /\ e = Errorf "%s: %w" [ArgS (filename c); ArgW ErrFileNotFound]
        /\ errors_Is_ErrFileNotFound e = true).
Proof.
  unfold findCfgFile. repeat split.
  - destruct (findInDirs W (dirs c) (filename c)) as [q|] eqn:E; [|discriminate].
    intros [= <-]. now apply findInDirs_Some.
  - intros H. apply findInDirs_Some in H. now rewrite H.
  - destruct (findInDirs W (dirs c) (filename c)) as [q|] eqn:E; simpl; [congruence|].
    intros _. now apply findInDirs_None.
  - intros H. apply findInDirs_None in H. rewrite H. simpl. discriminate.
  - destruct (findInDirs W (dirs c) (filename c)); simpl in *; congruence.
  - destruct (findInDirs W (dirs c) (filename c)); simpl in *; [discriminate|].
    now injection H as <-.
  - destruct (findInDirs W (dirs c) (filename c)); simpl in *; [discriminate|].
    now injection H as <-.
Qed.

(** ** The load orchestrator, further *)

Section LoadFacts.

Variable lib : GoLib.
Variable stringSlice : string -> list string.
Variable isZero : forall t : type, denote t -> bool.
Variable env : gmap string string.
Variable W : World.

Local Abbreviation load' := (Load lib stringSlice isZero env W).
Local Abbreviation load_profiles' := (Load_profiles lib stringSlice isZero env W).
Local Abbreviation load_finish' := (Load_finish lib stringSlice isZero env W).

Lemma Load_not_struct_ptr c cfg :
  isStructPtr W cfg = false ->
  load' c cfg = Failed (Errorf "cfg must be a pointer to a struct" []).
Proof. intros H. unfold Load. now rewrite H. Qed.

(** A successful run of the profile loop ends in the tail of [Load]. *)
Lemma Load_profiles_loaded c ps vals cfg :
  is_loaded (load_profiles' c ps vals cfg) = true ->
  exists vals', load_profiles' c ps vals cfg = load_finish' c vals' cfg.
Proof.
  revert vals; induction ps as [|p ps IH]; intros vals; simpl.
  - eauto.
  - destruct (findProfileCfgFile W c p) as [[file [e|]]|msg]; simpl; try discriminate.
    destruct (decodeFile W c file) as [pv [e|]]; simpl; try discriminate.
    destruct (mergo_Merge W vals pv); simpl; try discriminate.
    apply IH.
Qed.

Lemma Load_loaded c cfg :
  is_loaded (load' c cfg) = true ->
  isStructPtr W cfg = true
  /\ exists vals, load' c cfg = load_finish' c vals cfg.
Proof.
  destruct (isStructPtr W cfg) eqn:Hs.
  2:{ rewrite Load_not_struct_ptr by exact Hs. discriminate. }
  intros H. split; [reflexivity|].
  destruct (useReader c) eqn:Hr.
  - rewrite (Load_with_reader lib stringSlice isZero env W c cfg Hr Hs) in *.
    destruct (decodeReader W c _ _) as [rv [e|]]; try discriminate.
    destruct (mergo_Merge W rv _); try discriminate.
    now apply Load_profiles_loaded.
  - rewrite (Load_without_reader lib stringSlice isZero env W c cfg Hr Hs) in *.
    destruct (findCfgFile W c).2; try discriminate.
    destruct (decodeFile W c _) as [vals [e|]]; try discriminate.
    now apply Load_profiles_loaded.
Qed.

(** The profile loop does not succeed when the file of one of the
    profiles is missing. *)
Lemma Load_profiles_missing c ps vals cfg p file :
  In p ps ->
  profileFileName c p = Ret file ->
  findInDirs W (dirs c) file = None ->
  is_loaded (load_profiles' c ps vals cfg) = false.
Proof.
  intros Hin Hf Hnone. revert vals; induction ps as [|q ps IH]; intros vals; [destruct Hin|].
  simpl. destruct Hin as [->|Hin].
  - unfold findProfileCfgFile. now rewrite Hf, Hnone.
  - destruct (findProfileCfgFile W c q) as [[file' [e|]]|msg]; simpl; try reflexivity.
    destruct (decodeFile W c file') as [pv [e|]]; simpl; try reflexivity.
    destruct (mergo_Merge W vals pv); simpl; try reflexivity.
    now apply IH.
Qed.

End LoadFacts.

(** X2: without a reader, when no directory has the primary file, [Load]
    on a pointer to a struct returns the error of the search, which
    wraps the file-not-found sentinel; nothing is decoded. *)
Theorem X2_Load_file_not_found
    (lib : GoLib) (stringSlice : string -> list string)
    (isZero : forall t : type, denote t -> bool) (env : gmap string string)
    (W : World) (c : confucius) (cfg : Cfg W) :
  useReader c = false ->
  isStructPtr W cfg = true ->
  (forall d, In d (dirs c) -> fileExists W (filepath_Join W d (filename c)) = false) ->
  Load lib stringSlice isZero env W c cfg
  = Failed (Errorf "%s: %w" [ArgS (filename c); ArgW ErrFileNotFound])
  /\ errors_Is_ErrFileNotFound (Errorf "%s: %w" [ArgS (filename c); ArgW ErrFileNotFound])
     = true.
Proof.
  intros Hr Hs Hno. split; [|reflexivity].
  rewrite (Load_without_reader lib stringSlice isZero env W c cfg Hr Hs).
  unfold findCfgFile. apply findInDirs_None in Hno. now rewrite Hno.
Qed.

Lemma X2_Load_file_not_found_witness :
  Load lib_reject stringSlice_spec isZero_spec ∅ world_empty defaultConfucius []
  = Failed (Errorf "%s: %w" [ArgS "config.yaml"; ArgW ErrFileNotFound]).
Proof.
  apply (X2_Load_file_not_found lib_reject stringSlice_spec isZero_spec ∅ world_empty
           defaultConfucius []); reflexivity.
Defined.

(** X3: a profile whose file is in none of the directories is fatal:
    whatever the other steps do, [Load] does not succeed. *)
Theorem X3_Load_missing_profile_is_fatal
    (lib : GoLib) (stringSlice : string -> list string)
    (isZero : forall t : type, denote t -> bool) (env : gmap string string)
    (W : World) (c : confucius) (cfg : Cfg W) (p file : string) :
  In p (profiles c) ->
  profileFileName c p = Ret file ->
  (forall d, In d (dirs c) -> fileExists W (filepath_Join W d file) = false) ->
  is_loaded (Load lib stringSlice isZero env W c cfg) = false.
Proof.
  intros Hin Hf Hno. apply findInDirs_None in Hno.
  destruct (is_loaded (Load lib stringSlice isZero env W c cfg)) eqn:E; [|reflexivity].
  destruct (isStructPtr W cfg) eqn:Hs.
  2:{ rewrite Load_not_struct_ptr in E by exact Hs. discriminate. }
  pose proof (fun vals => Load_profiles_missing lib stringSlice isZero env W c
                            (profiles c) vals cfg p file Hin Hf Hno) as HP.
  destruct (useReader c) eqn:Hr.
  - rewrite (Load_with_reader lib stringSlice isZero env W c cfg Hr Hs) in E.
    destruct (decodeReader W c _ _) as [rv [e|]]; try discriminate.
    destruct (mergo_Merge W rv _); try discriminate.
    now rewrite HP in E.
  - rewrite (Load_without_reader lib stringSlice isZero env W c cfg Hr Hs) in E.
    destruct (findCfgFile W c).2; try discriminate.
    destruct (decodeFile W c _) as [vals [e|]]; try discriminate.
    now rewrite HP in E.
Qed.

Lemma X3_Load_missing_profile_witness :
  let c := with_reader "host: 127.0.0.1" ".yaml"
             (with_file "server.yaml" ["test"] defaultConfucius) in
  profileFileName c "test" = Ret "server.test.yaml"
  /\ is_loaded (Load lib_reject stringSlice_spec isZero_spec ∅ world_empty c []) = false.
Proof.
  intros c. split; [reflexivity|].
  apply (X3_Load_missing_profile_is_fatal lib_reject stringSlice_spec isZero_spec ∅
           world_empty c [] "test" "server.test.yaml").
  - simpl. left. reflexivity.
  - reflexivity.
  - intros d _. reflexivity.
Defined.

(** ** The policy resolver, further *)

Section PolicyMore.

Variable lib : GoLib.
Variable stringSlice : string -> list string.
Variable isZero : forall t : type, denote t -> bool.
Variable env : gmap string string.
Variable c : confucius.

Local Abbreviation pField' := (processField lib stringSlice isZero env c).
Local Abbreviation pFields' := (processFields lib stringSlice isZero env c).
Local Abbreviation pCfg' := (processCfg lib stringSlice isZero env c).

(** [processField] writes the contents of the leaf and nothing else. *)
Lemma processField_writes_v f : exists x, (pField' f).1 = with_v f x.
Proof.
  unfold processField.
  destruct (required f && setDefault f).
  { exists (v f). now destruct f. }
  destruct (envOverlay lib stringSlice env c f) as [v1 [e|]]; [eauto|].
  destruct (required f && isZero (t f) v1); [eauto|].
  destruct (setDefault f && isZero (t f) v1); [|eauto].
  destruct (setDefaultValue lib stringSlice c (t f) v1 (defaultVal f)) as [v2 [e|]]; eauto.
Qed.

Lemma processField_path f : path (pField' f).1 = path f.
Proof. destruct (processField_writes_v f) as [x ->]. reflexivity. Qed.

(** What holds of a leaf [processField] has accepted. *)
Lemma processField_accepted f f' :
  pField' f = (f', None) ->
  required f' && setDefault f' = false
  /\ (required f' = true -> isZero (t f') (v f') = false).
Proof.
  unfold processField.
  destruct (required f && setDefault f) eqn:Hb; [discriminate|].
  destruct (envOverlay lib stringSlice env c f) as [v1 [e|]]; [discriminate|].
  destruct (required f && isZero (t f) v1) eqn:Hrz; [discriminate|].
  destruct (setDefault f && isZero (t f) v1) eqn:Hdz.
  - destruct (setDefaultValue lib stringSlice c (t f) v1 (defaultVal f)) as [v2 [e|]];
      [discriminate|].
    intros [= <-]. simpl. split; [exact Hb|].
    intros Hr. rewrite Hr in Hb. simpl in Hb. rewrite Hb in Hdz. discriminate.
  - intros [= <-]. simpl. split; [exact Hb|].
    intros Hr. now rewrite Hr in Hrz.
Qed.

(** A leaf that has been accepted is accepted again, unchanged. *)
Lemma processField_again f f' :
  pField' f = (f', None) -> pField' f' = (f', None).
Proof.
  unfold processField.
  destruct (required f && setDefault f) eqn:Hb; [discriminate|].
  assert (Hov : forall v1 x,
             envOverlay lib stringSlice env c f = (v1, None) ->
             (useEnv c = true /\ is_Some (os_LookupEnv env (formatEnvKey lib c (path f)))
              \/ x = v1) ->
             envOverlay lib stringSlice env c (with_v f x) = (v1, None)).
  { intros v1 x. unfold envOverlay, setFromEnv. simpl.
    destruct (useEnv c).
    - destruct (os_LookupEnv env (formatEnvKey lib c (path f))) as [val|].
      + intros H _. eapply setValue_success_indep; eauto.
      + intros [= <-] [[_ [? ?]]| ->]; [discriminate|reflexivity].
    - intros [= <-] [[? _]| ->]; [discriminate|reflexivity]. }
  destruct (envOverlay lib stringSlice env c f) as [v1 [e|]] eqn:Ho; [discriminate|].
  destruct (required f && isZero (t f) v1) eqn:Hrz; [discriminate|].
  destruct (setDefault f && isZero (t f) v1) eqn:Hdz.
  - destruct (setDefaultValue lib stringSlice c (t f) v1 (defaultVal f)) as [v2 [e|]] eqn:Hd;
      [discriminate|].
    intros [= <-]. simpl. rewrite Hb.
    apply andb_true_iff in Hdz as [Hsd Hz]. rewrite Hsd in *.
    rewrite andb_true_r in Hb. rewrite Hb in *. simpl.
    assert (Hd' : forall x, setDefaultValue lib stringSlice c (t f) x (defaultVal f) = (v2, None)).
    { intros x. unfold setDefaultValue in *.
      destruct (Kind (t f)); try discriminate; eapply setValue_success_indep; eauto. }
    unfold envOverlay, setFromEnv in *. simpl.
    destruct (useEnv c).
    + destruct (os_LookupEnv env (formatEnvKey lib c (path f))) as [val|].
      * rewrite (setValue_success_indep _ _ _ _ _ v2 _ _ Ho). rewrite Hz, Hd'. reflexivity.
      * injection Ho as <-. destruct (isZero (t f) v2); [now rewrite Hd'|reflexivity].
    + injection Ho as <-. destruct (isZero (t f) v2); [now rewrite Hd'|reflexivity].
  - intros [= <-]. simpl. rewrite Hb.
    rewrite (Hov v1 v1 eq_refl) by now right.
    now rewrite Hrz, Hdz.
Qed.

End PolicyMore.

(** X4: when [Load] succeeds, no leaf it leaves behind is tagged both
    required and default, and every required leaf is set: it is not
    zero. *)
Theorem X4_Load_success_required_set
    (lib : GoLib) (stringSlice : string -> list string)
    (isZero : forall t : type, denote t -> bool) (env : gmap string string)
    (W : World) (c : confucius) (cfg : Cfg W) (leaves : list field) (f : field) :
  Load lib stringSlice isZero env W c cfg = Loaded leaves ->
  In f leaves ->
  isStructPtr W cfg = true
  /\ required f && setDefault f = false
  /\ (required f = true -> isZero (t f) (v f) = false).
Proof.
  intros HL Hin.
  destruct (Load_loaded lib stringSlice isZero env W c cfg) as (Hs & vals & Hv).
  { now rewrite HL. }
  split; [exact Hs|].
  rewrite Hv in HL. unfold Load_finish in HL.
  destruct (decodeMap env W c vals cfg) as [cfg'|e]; [|discriminate].
  destruct (processCfg lib stringSlice isZero env c (flattenCfg W cfg' (tag c)))
    as [leaves' [errs|]] eqn:Ep; [discriminate|].
  injection HL as ->.
  assert (Hl : leaves = map (fun g => (processField lib stringSlice isZero env c g).1)
                          (flattenCfg W cfg' (tag c))).
  { rewrite <- processCfg_leaves. now rewrite Ep. }
  rewrite Hl in Hin. apply in_map_iff in Hin as (g & <- & Hg).
  assert (He : (processField lib stringSlice isZero env c g).2 = None).
  { eapply processCfg_no_error; [|exact Hg]. now rewrite Ep. }
  apply (processField_accepted lib stringSlice isZero env c g).
  destruct (processField lib stringSlice isZero env c g) as [g' e]. simpl in *. now subst e.
Qed.

Lemma X4_Load_success_witness :
  let c := with_reader "host: 127.0.0.1" ".yaml" defaultConfucius in
  let f := {| t := StringT; v := "127.0.0.1"; path := "host";
              required := true; setDefault := false; defaultVal := EmptyString |} in
  Load lib_reject stringSlice_spec isZero_spec ∅ world_empty c [f] = Loaded [f]
  /\ isZero_spec (t f) (v f) = false.
Proof.
  intros c f. split; [reflexivity|].
  refine (proj2 (proj2 (X4_Load_success_required_set lib_reject stringSlice_spec isZero_spec ∅
                          world_empty c [f] [f] f _ _)) _);
    [reflexivity|simpl; left; reflexivity|reflexivity].
Defined.

(** X5: [processCfg] processes every leaf, whatever happened to the
    leaves before it, and keeps their paths; it returns no error exactly
    when no leaf fails, and otherwise the paths that have an entry in the
    aggregated errors are exactly the paths of the failing leaves. *)
Theorem X5_processCfg_collects_all
    (lib : GoLib) (stringSlice : string -> list string)
    (isZero : forall t : type, denote t -> bool) (env : gmap string string)
    (c : confucius) (fields : list field) :
  (processCfg lib stringSlice isZero env c fields).1
  = map (fun f => (processField lib stringSlice isZero env c f).1) fields
  /\ map path (processCfg lib stringSlice isZero env c fields).1 = map path fields
  /\ ((processCfg lib stringSlice isZero env c fields).2 = None <->
      forall f, In f fields -> (processField lib stringSlice isZero env c f).2 = None)
  /\ (forall errs k,
        (processCfg lib stringSlice isZero env c fields).2 = Some errs ->
        (is_Some (errs !! k) <->
         exists f, In f fields /\ path f = k
                   /\ is_Some (processField lib stringSlice isZero env c f).2)).
Proof.
  split; [apply processCfg_leaves|]. split; [|split].
  - rewrite processCfg_leaves, map_map. apply map_ext. intros f. apply processField_path.
  - apply processCfg_no_error.
  - intros errs k. apply processCfg_error_keys.
Qed.

(** X6: processing is idempotent on what it accepts: a leaf that
    [processField] has returned without error is returned unchanged and
    without error when it is processed again in the same environment. *)
Theorem X6_processField_idempotent
    (lib : GoLib) (stringSlice : string -> list string)
    (isZero : forall t : type, denote t -> bool) (env : gmap string string)
    (c : confucius) (f f' : field) :
  processField lib stringSlice isZero env c f = (f', None) ->
  processField lib stringSlice isZero env c f' = (f', None).
Proof. apply processField_again. Qed.

Lemma X6_processField_idempotent_witness :
  let f := {| t := PtrT (IntT KInt); v := None; path := "port";
              required := false; setDefault := true; defaultVal := "8000" |} in
  processField lib_reject stringSlice_spec isZero_spec ∅ defaultConfucius (with_v f (Some 8000))
  = (with_v f (Some 8000), None).
Proof.
  intros f.
  apply (X6_processField_idempotent lib_reject stringSlice_spec isZero_spec ∅
           defaultConfucius f (with_v f (Some 8000))).
  reflexivity.
Defined.

(** ** The value coercer, further *)

Lemma setSlice_loop_Ok {A : Type} (set : A -> string -> A * option error) (zero : A)
    (ss : list string) (l : list A) :
  setSlice_loop set zero ss = Ok l <->
  Forall2 (fun x s => set zero s = (x, None)) l ss.
Proof.
  revert l; induction ss as [|s ss IH]; intros l; simpl.
  - split; [intros [= <-]; constructor|intros H; now inversion H].
  - destruct (set zero s) as [x [e|]] eqn:Es.
    + split; [discriminate|]. intros H. inversion H; subst. congruence.
    + destruct (setSlice_loop set zero ss) as [l'|e] eqn:El.
      * split.
        -- intros [= <-]. constructor; [exact Es|]. now apply IH.
        -- intros H. inversion H as [|x' s' l'' ss' Hx Hl]; subst.
           rewrite Es in Hx. injection Hx as <-.
           apply IH in Hl. now injection Hl as <-.
      * split; [discriminate|]. intros H. inversion H as [|x' s' l'' ss' Hx Hl]; subst.
        apply IH in Hl. discriminate.
Qed.

Lemma setSlice_loop_Err {A : Type} (set : A -> string -> A * option error) (zero : A)
    (ss : list string) (e : error) :
  setSlice_loop set zero ss = Err e <->
  exists before s after,
    ss = (before ++ s :: after)%list
    /\ (set zero s).2 = Some e
    /\ Forall (fun s' => (set zero s').2 = None) before.
Proof.
  induction ss as [|s ss IH]; simpl.
  - split; [discriminate|]. intros (before & s & after & H & _). destruct before; discriminate.
  - destruct (set zero s) as [x [e'|]] eqn:Es.
    + split.
      * intros [= <-]. exists [], s, ss. rewrite Es. repeat split. constructor.
      * intros (before & s' & after & H & Hs & Hb).
        destruct before as [|b before]; simpl in H; injection H as -> ->.
        -- rewrite Es in Hs. simpl in Hs. congruence.
        -- inversion Hb as [|? ? Hb1 Hb2]; subst. rewrite Es in Hb1. discriminate.
    + destruct (setSlice_loop set zero ss) as [l'|e'] eqn:El.
      * split; [discriminate|].
        intros (before & s' & after & H & Hs & Hb).
        destruct before as [|b before]; simpl in H; injection H as -> ->.
        -- rewrite Es in Hs. discriminate.
        -- inversion Hb; subst.
           assert (Ok l' = Err e :> result (list A)) by (apply IH; exists before, s', after; auto). discriminate.
      * split.
        -- intros [= <-]. apply proj1 in IH. destruct (IH eq_refl) as (before & s' & after & -> & Hs & Hb).
           exists (s :: before), s', after. repeat split; auto.
           constructor; [now rewrite Es|exact Hb].
        -- intros (before & s' & after & H & Hs & Hb).
           destruct before as [|b before]; simpl in H; injection H as -> ->.
           ++ rewrite Es in Hs. discriminate.
           ++ inversion Hb; subst. apply IH. exists before, s', after. auto.
Qed.

(** X7: [setSlice] succeeds exactly when every element string of the
    literal coerces into a fresh element, and the new slice then holds
    these coercions in order, one per element string; it fails with the
    error of the first element that does not coerce, and then leaves the
    slice as it was. *)
Theorem X7_setSlice_elementwise
    (lib : GoLib) (stringSlice : string -> list string) (c : confucius)
    (elem : type) (sv : denote (SliceT elem)) (val : string) :
  (forall slice,
     setSlice lib stringSlice c elem sv val = (slice, None) <->
     Forall2 (fun x s => setValue lib stringSlice c elem (Zero elem) s = (x, None))
       slice (stringSlice val))
  /\ (forall e,
        (setSlice lib stringSlice c elem sv val).2 = Some e <->
        exists before s after,
          stringSlice val = (before ++ s :: after)%list
          /\ (setValue lib stringSlice c elem (Zero elem) s).2 = Some e
          /\ Forall (fun s' => (setValue lib stringSlice c elem (Zero elem) s').2 = None)
               before)
  /\ (forall e,
        (setSlice lib stringSlice c elem sv val).2 = Some e ->
        (setSlice lib stringSlice c elem sv val).1 = sv).
Proof.
  unfold setSlice. repeat split.
  - destruct (setSlice_loop _ _ _) as [l|e] eqn:El; [|discriminate].
    intros [= <-]. now apply setSlice_loop_Ok.
  - intros H. apply setSlice_loop_Ok in H. now rewrite H.
  - destruct (setSlice_loop _ _ _) as [l|e'] eqn:El; simpl; [discriminate|].
    intros [= <-]. now apply setSlice_loop_Err.
  - intros H. apply setSlice_loop_Err in H. now rewrite H.
  - destruct (setSlice_loop _ _ _); simpl; [discriminate|reflexivity].
Qed.

(** *** Decimal literals *)

Lemma is_digit_val (a : ascii) : is_digit a = true -> 0 <= digit_val a <= 9.
Proof.
  unfold is_digit, digit_val. intros H.
  apply andb_true_iff in H as [H1 H2].
  apply Z.leb_le in H1, H2. lia.
Qed.

Lemma digits_value_ge (n : Z) (s : string) (m : Z) :
  0 <= n -> digits_value n s = Some m -> n <= m.
Proof.
  revert n; induction s as [|a s IH]; intros n Hn; simpl.
  - intros [= <-]. lia.
  - destruct (is_digit a) eqn:Ed; [|discriminate].
    pose proof (is_digit_val a Ed) as Hd. intros H. apply IH in H; lia.
Qed.

Lemma ParseUint_loop_spec (maxVal n : Z) (s : string) (m : Z) :
  0 <= n <= maxVal -> maxVal <= maxUint64 ->
  ParseUint_loop maxVal n s = inl m <-> digits_value n s = Some m /\ m <= maxVal.
Proof.
  intros Hn Hmax. revert n Hn; induction s as [|a s IH]; intros n Hn; simpl.
  - split; [intros [= <-]; split; [reflexivity|lia]|intros [[= <-] _]; reflexivity].
  - destruct (is_digit a) eqn:Ed; [|split; [discriminate|intros [? _]; discriminate]].
    pose proof (is_digit_val a Ed) as Hd.
    assert (Hc : maxUint64 / 10 + 1 = 1844674407370955162) by reflexivity.
    assert (Hm : maxUint64 = 18446744073709551615) by reflexivity.
    rewrite Hc.
    destruct (1844674407370955162 <=? n) eqn:E1.
    + apply Z.leb_le in E1. split; [discriminate|].
      intros [H Hle]. apply digits_value_ge in H; lia.
    + apply Z.leb_gt in E1.
      destruct (maxVal <? n * 10 + digit_val a) eqn:E2.
      * apply Z.ltb_lt in E2. split; [discriminate|].
        intros [H Hle]. apply digits_value_ge in H; lia.
      * apply Z.ltb_ge in E2. apply IH. lia.
Qed.

Lemma ParseUint_Ok (s : string) (n : Z) :
  strconv_ParseUint s 64 = Ok n <-> decimal_value s = Some n /\ n < 2 ^ 64.
Proof.
  unfold strconv_ParseUint, ParseUint_raw, decimal_value.
  destruct s as [|a s]; [split; [discriminate|intros [? _]; discriminate]|].
  assert (Hspec : forall m0,
             ParseUint_loop (2 ^ 64 - 1) 0 (String a s) = inl m0 <->
             digits_value 0 (String a s) = Some m0 /\ m0 <= 2 ^ 64 - 1).
  { intros m0. apply ParseUint_loop_spec; [split; [lia|discriminate]|reflexivity]. }
  destruct (ParseUint_loop (2 ^ 64 - 1) 0 (String a s)) as [m|[|]] eqn:El.
  - split.
    + intros [= <-]. destruct (proj1 (Hspec m) eq_refl) as [? ?]. split; [assumption|lia].
    + intros [Hd Hlt].
      assert (H : inl m = inl n :> Z + NumErr) by (apply Hspec; split; [assumption|lia]).
      now injection H as ->.
  - split; [discriminate|]. intros [Hd Hlt].
    assert (H : inr ErrSyntax = inl n :> Z + NumErr) by (apply Hspec; split; [assumption|lia]).
    discriminate.
  - split; [discriminate|]. intros [Hd Hlt].
    assert (H : inr ErrRange = inl n :> Z + NumErr) by (apply Hspec; split; [assumption|lia]).
    discriminate.
Qed.

(** X8: coercing into an unsigned integer leaf succeeds exactly when the
    literal is a non-empty string of decimal digits (no sign, no blank)
    whose number is below 2^64; the leaf then holds that number reduced
    modulo 2 to the width of the leaf, so the number itself when it fits
    the width. *)
Theorem X8_setValue_unsigned
    (lib : GoLib) (stringSlice : string -> list string) (c : confucius)
    (k : UintKind) (fv : denote (UintT k)) (val : string) :
  (forall x : denote (UintT k),
     setValue lib stringSlice c (UintT k) fv val = (x, None) <->
     exists n, decimal_value val = Some n /\ n < 2 ^ 64 /\ x = n mod 2 ^ UintBits k)
  /\ (forall n,
        decimal_value val = Some n -> n < 2 ^ UintBits k ->
        setValue lib stringSlice c (UintT k) fv val = (n, None)).
Proof.
  assert (H1 : forall x : denote (UintT k),
             setValue lib stringSlice c (UintT k) fv val = (x, None) <->
             exists n, decimal_value val = Some n /\ n < 2 ^ 64 /\ x = n mod 2 ^ UintBits k).
  { intros x. simpl. destruct (strconv_ParseUint val 64) as [i|e] eqn:Ep.
    - apply ParseUint_Ok in Ep as [Hd Hlt]. split.
      + intros [= <-]. exists i. auto.
      + intros (n & Hn & _ & ->). rewrite Hd in Hn. now injection Hn as <-.
    - split; [discriminate|]. intros (n & Hn & Hlt & _).
      assert (strconv_ParseUint val 64 = Ok n) by now apply ParseUint_Ok. congruence. }
  split; [exact H1|].
  intros n Hd Hlt. apply H1. exists n. split; [exact Hd|].
  assert (H0 : 0 <= n).
  { unfold decimal_value in Hd. destruct val; [discriminate|].
    apply digits_value_ge in Hd; lia. }
  split.
  - destruct k; simpl in Hlt; lia.
  - symmetry. apply Z.mod_small. lia.
Qed.

Lemma X8_setValue_unsigned_witness :
  setValue lib_reject stringSlice_spec defaultConfucius (UintT KUint16) 7 "0042" = (42, None).
Proof.
  apply (proj2 (X8_setValue_unsigned lib_reject stringSlice_spec defaultConfucius
                  KUint16 7 "0042") 42); reflexivity.
Defined.

Lemma ParseInt_Ok (s0 : string) (i : Z) :
  strconv_ParseInt s0 64 = Ok i <->
  exists n,
    decimal_value (split_sign s0).2 = Some n
    /\ (if (split_sign s0).1 then n <= 2 ^ 63 else n < 2 ^ 63)
    /\ i = if (split_sign s0).1 then - n else n.
Proof.
  unfold strconv_ParseInt, split_sign.
  destruct s0 as [|a rest].
  { split; [discriminate|]. intros (n & H & _). discriminate. }
  set (p := if Ascii.eqb a "+" then (false, rest)
            else if Ascii.eqb a "-" then (true, rest) else (false, String a rest)).
  destruct p as [neg s] eqn:Ep. simpl fst; simpl snd.
  change (2 ^ (64 - 1)) with (2 ^ 63).
  pose proof (ParseUint_Ok s) as HU. unfold strconv_ParseUint in HU.
  destruct (ParseUint_raw s 64) as [un [[|]|]] eqn:Er.
  - split; [discriminate|]. intros (n & Hd & Hr & _).
    assert (Err (NumError "ParseUint" s ErrSyntax) = Ok n) by
      (apply HU; split; [assumption|destruct neg; lia]).
    discriminate.
  - assert (Hun : un = 2 ^ 64 - 1).
    { unfold ParseUint_raw in Er. destruct s; [discriminate|].
      destruct (ParseUint_loop _ _ _) as [?|[|]]; congruence. }
    subst un. destruct neg; simpl.
    + split; [discriminate|]. intros (n & Hd & Hr & _).
      assert (Err (NumError "ParseUint" s ErrRange) = Ok n) by (apply HU; split; [assumption|lia]).
      discriminate.
    + split; [discriminate|]. intros (n & Hd & Hr & _).
      assert (Err (NumError "ParseUint" s ErrRange) = Ok n) by (apply HU; split; [assumption|lia]).
      discriminate.
  - assert (Hd : decimal_value s = Some un /\ un < 2 ^ 64) by now apply HU.
    destruct Hd as [Hd Hlt].
    destruct neg; simpl.
    + destruct (2 ^ 63 <? un) eqn:E.
      * apply Z.ltb_lt in E. split; [discriminate|].
        intros (n & Hn & Hr & _). rewrite Hd in Hn. injection Hn as <-. lia.
      * apply Z.ltb_ge in E. split.
        -- intros [= <-]. exists un. auto.
        -- intros (n & Hn & _ & ->). rewrite Hd in Hn. now injection Hn as <-.
    + destruct (2 ^ 63 <=? un) eqn:E.
      * apply Z.leb_le in E. split; [discriminate|].
        intros (n & Hn & Hr & _). rewrite Hd in Hn. injection Hn as <-. lia.
      * apply Z.leb_gt in E. split.
        -- intros [= <-]. exists un. auto.
        -- intros (n & Hn & _ & ->). rewrite Hd in Hn. now injection Hn as <-.
Qed.

Lemma wrap_signed_small (bits z : Z) :
  0 < bits -> - 2 ^ (bits - 1) <= z < 2 ^ (bits - 1) -> wrap_signed bits z = z.
Proof.
  intros Hb Hz. unfold wrap_signed.
  assert (H2 : 2 ^ bits = 2 * 2 ^ (bits - 1)).
  { replace bits with (bits - 1 + 1) at 1 by lia. rewrite Z.pow_add_r by lia. lia. }
  rewrite Z.mod_small by lia. lia.
Qed.

(** X9: coercing into a signed integer leaf (not a duration) succeeds
    exactly when the literal is an optional sign followed by a non-empty
    string of decimal digits whose signed number is an [int64]; the leaf
    then holds that number wrapped to the width of the leaf, so the
    number itself when it fits the width. *)
Theorem X9_setValue_signed
    (lib : GoLib) (stringSlice : string -> list string) (c : confucius)
    (k : IntKind) (fv : denote (IntT k)) (val : string) :
  (forall x : denote (IntT k),
     setValue lib stringSlice c (IntT k) fv val = (x, None) <->
     exists n,
       decimal_value (split_sign val).2 = Some n
       /\ (if (split_sign val).1 then n <= 2 ^ 63 else n < 2 ^ 63)
       /\ x = wrap_signed (IntBits k) (if (split_sign val).1 then - n else n))
  /\ (forall n,
        decimal_value (split_sign val).2 = Some n ->
        - 2 ^ (IntBits k - 1) <= (if (split_sign val).1 then - n else n) < 2 ^ (IntBits k - 1) ->
        setValue lib stringSlice c (IntT k) fv val
        = ((if (split_sign val).1 then - n else n), None)).
Proof.
  assert (H1 : forall x : denote (IntT k),
     setValue lib stringSlice c (IntT k) fv val = (x, None) <->
     exists n,
       decimal_value (split_sign val).2 = Some n
       /\ (if (split_sign val).1 then n <= 2 ^ 63 else n < 2 ^ 63)
       /\ x = wrap_signed (IntBits k) (if (split_sign val).1 then - n else n)).
  { intros x. simpl. destruct (strconv_ParseInt val 64) as [i|e] eqn:Ep.
    - apply ParseInt_Ok in Ep as (n & Hd & Hr & ->). split.
      + intros [= <-]. exists n. auto.
      + intros (n' & Hn & _ & ->). rewrite Hd in Hn. now injection Hn as <-.
    - split; [discriminate|]. intros (n & Hn & Hr & _).
      assert (strconv_ParseInt val 64 = Ok (if (split_sign val).1 then - n else n))
        by (apply ParseInt_Ok; eauto).
      congruence. }
  split; [exact H1|].
  intros n Hd Hr. apply H1. exists n. split; [exact Hd|].
  assert (Hk : 0 < IntBits k <= 64) by (destruct k; simpl; lia).
  assert (Hp : 2 ^ (IntBits k - 1) <= 2 ^ 63) by (apply Z.pow_le_mono_r; lia).
  split.
  - destruct (split_sign val).1; lia.
  - symmetry. apply wrap_signed_small; lia.
Qed.

Lemma X9_setValue_signed_witness :
  setValue lib_reject stringSlice_spec defaultConfucius (IntT KInt8) 0 "-128" = (-128, None).
Proof.
  apply (proj2 (X9_setValue_signed lib_reject stringSlice_spec defaultConfucius
                  KInt8 0 "-128") 128);
    [reflexivity|vm_compute; split; [discriminate|reflexivity]].
Defined.

(** ** The profile file name, further *)

Lemma app_nil_r_str (s : string) : s +:+ EmptyString = s.
Proof. induction s as [|a s IH]; [reflexivity|]. now rewrite app_cons, IH. Qed.

Lemma ReplaceAll_from_cons (k : nat) (a : ascii) (s old new : string) :
  ReplaceAll_from k (String a s) old new
  = match k with
    | S k' => ReplaceAll_from k' s old new
    | O =>
        if String.prefix old (String a s)
        then new +:+ ReplaceAll_from (String.length old - 1) s old new
        else String a (ReplaceAll_from O s old new)
    end.
Proof. reflexivity. Qed.

Lemma prefix_nil_l (s : string) : String.prefix EmptyString s = true.
Proof. now destruct s. Qed.

(** An occurrence that starts before a byte the searched string does not
    have ends before it. *)
Lemma prefix_app_sep (old s r : string) (x : ascii) :
  has_byte x old = false ->
  String.prefix old (s +:+ String x r) = String.prefix old s.
Proof.
  revert old; induction s as [|a s IH]; intros old Hx.
  - rewrite app_nil_l_str. destruct old as [|b o]; [reflexivity|].
    simpl in Hx. apply orb_false_iff in Hx as [Hb _].
    rewrite prefix_cons_cons, Hb. reflexivity.
  - rewrite app_cons. destruct old as [|b o]; [reflexivity|].
    simpl in Hx. apply orb_false_iff in Hx as [_ Ho].
    rewrite !prefix_cons_cons, (IH o Ho). reflexivity.
Qed.

Lemma ReplaceAll_no_occurrence (s r old new : string) (x : ascii) :
  occurs old s = false -> has_byte x old = false ->
  ReplaceAll_from O (s +:+ String x r) old new
  = s +:+ ReplaceAll_from O (String x r) old new.
Proof.
  intros Ho Hx. induction s as [|a s IH]; [reflexivity|].
  change (occurs old (String a s))
    with (String.prefix old (String a s) || occurs old s) in Ho.
  apply orb_false_iff in Ho as [Hp Ho].
  rewrite !app_cons, ReplaceAll_from_cons.
  change (String a (s +:+ String x r)) with (String a s +:+ String x r).
  rewrite (prefix_app_sep old (String a s) r x Hx), Hp, (IH Ho). reflexivity.
Qed.

(** X10: with the default layout [config.test.yaml], when the primary
    file name splits at its dots into a first part [base], a second part
    [ext] and maybe more, the words [test] and [yaml] do not occur in
    [base] and [yaml] does not occur in the profile, the profile file is
    [base.profile.ext]; the parts after the second are dropped. *)
Theorem X10_profileFileName_default_layout
    (c : confucius) (profile base ext : string) (more : list string) :
  profileLayout c = DefaultProfileLayout ->
  strings_Split (filename c) "." = base :: ext :: more ->
  occurs "test" base = false ->
  occurs "yaml" base = false ->
  occurs "yaml" profile = false ->
  profileFileName c profile = Ret (base +:+ "." +:+ profile +:+ "." +:+ ext).
Proof.
  intros Hl Hs Ht Hy Hp. rewrite (profileFileName_parts c profile base ext more Hs), Hl.
  assert (H1 : strings_ReplaceAll DefaultProfileLayout "config" base = base +:+ ".test.yaml")
    by reflexivity.
  rewrite H1. unfold strings_ReplaceAll.
  change (base +:+ ".test.yaml") with (base +:+ String "." "test.yaml").
  rewrite (ReplaceAll_no_occurrence base "test.yaml" "test" profile "." Ht eq_refl).
  assert (H2 : ReplaceAll_from O (String "." "test.yaml") "test" profile
               = String "." EmptyString +:+ profile +:+ String "." "yaml") by reflexivity.
  rewrite H2.
  change (base +:+ String "." EmptyString +:+ profile +:+ String "." "yaml")
    with (base +:+ String "." (profile +:+ String "." "yaml")).
  rewrite (ReplaceAll_no_occurrence base _ "yaml" ext "." Hy eq_refl).
  rewrite ReplaceAll_from_cons.
  change (String.prefix "yaml" (String "." (profile +:+ String "." "yaml"))) with false.
  rewrite (ReplaceAll_no_occurrence profile "yaml" "yaml" ext "." Hp eq_refl).
  assert (H3 : ReplaceAll_from O (String "." "yaml") "yaml" ext
               = String "." (ext +:+ EmptyString)) by reflexivity.
  rewrite H3, app_nil_r_str. reflexivity.
Qed.

Lemma X10_profileFileName_witness :
  profileFileName (with_file "server.json.bak" ["prod"] defaultConfucius) "prod"
  = Ret "server.prod.json".
Proof.
  apply (X10_profileFileName_default_layout
           (with_file "server.json.bak" ["prod"] defaultConfucius)
           "prod" "server" "json" ["bak"]);
    reflexivity.
Defined.

(** ** The path formatter, further *)

Lemma replace_byte_absent (old : ascii) (new s : string) :
  has_byte old s = false -> replace_byte old new s = s.
Proof.
  induction s as [|a s IH]; simpl; [reflexivity|].
  intros H. apply orb_false_iff in H as [Ha Hs]. now rewrite Ha, (IH Hs).
Qed.

Lemma normalize_path_idempotent (p : string) :
  normalize_path (normalize_path p) = normalize_path p.
Proof.
  destruct (normalize_path_clean p) as (H1 & H2 & H3).
  unfold normalize_path at 1.
  now rewrite (replace_byte_absent "." _ _ H1), (replace_byte_absent "[" _ _ H2),
    (replace_byte_absent "]" _ _ H3).
Qed.

Lemma formatEnvKey_unfold (lib : GoLib) (c : confucius) (key : string) :
  formatEnvKey lib c key
  = strings_ToUpper lib (join_prefix (envPrefix c) (normalize_path key)).
Proof. unfold formatEnvKey. now rewrite replacer_is_normalize, join_prefix_eqb. Qed.

Lemma upper_byte_idempotent (a : ascii) : upper_byte (upper_byte a) = upper_byte a.
Proof. destruct a as [[] [] [] [] [] [] [] []]; reflexivity. Qed.

Lemma upper_byte_ascii (a : ascii) :
  (Z.of_nat (nat_of_ascii (upper_byte a)) <? 128) = (Z.of_nat (nat_of_ascii a) <? 128).
Proof. destruct a as [[] [] [] [] [] [] [] []]; reflexivity. Qed.

Lemma upper_byte_eqb_sep (a : ascii) :
  Ascii.eqb (upper_byte a) "." = Ascii.eqb a "."
  /\ Ascii.eqb (upper_byte a) "[" = Ascii.eqb a "["
  /\ Ascii.eqb (upper_byte a) "]" = Ascii.eqb a "]".
Proof. destruct a as [[] [] [] [] [] [] [] []]; repeat split; reflexivity. Qed.

Lemma isASCII_map_upper (s : string) : isASCII (map_bytes upper_byte s) = isASCII s.
Proof.
  induction s as [|a s IH]; simpl; [reflexivity|]. now rewrite upper_byte_ascii, IH.
Qed.

Lemma map_upper_idempotent (s : string) :
  map_bytes upper_byte (map_bytes upper_byte s) = map_bytes upper_byte s.
Proof.
  induction s as [|a s IH]; simpl; [reflexivity|]. now rewrite upper_byte_idempotent, IH.
Qed.

Lemma replace_byte_map_upper (old : ascii) (new s : string) :
  (forall a, Ascii.eqb (upper_byte a) old = Ascii.eqb a old) ->
  map_bytes upper_byte new = new ->
  replace_byte old new (map_bytes upper_byte s)
  = map_bytes upper_byte (replace_byte old new s).
Proof.
  intros Ho Hn. induction s as [|a s IH]; simpl; [reflexivity|].
  rewrite Ho. destruct (Ascii.eqb a old).
  - now rewrite map_bytes_app, Hn, IH.
  - simpl. now rewrite IH.
Qed.

Lemma normalize_path_map_upper (s : string) :
  normalize_path (map_bytes upper_byte s) = map_bytes upper_byte (normalize_path s).
Proof.
  unfold normalize_path.
  rewrite !replace_byte_map_upper; try reflexivity; intros a; apply upper_byte_eqb_sep.
Qed.

(** X11: the environment key does not tell [.], [[] and [_] apart and
    ignores []]: a path and its rewritten form give the same key; on
    ASCII input it ignores the case of the letters too.  Leaves whose
    paths differ only in these read the same environment variable. *)
Theorem X11_formatEnvKey_collisions (lib : GoLib) (c : confucius) (key : string) :
  formatEnvKey lib c (normalize_path key) = formatEnvKey lib c key
  /\ (isASCII (envPrefix c) = true -> isASCII key = true ->
      formatEnvKey lib c (map_bytes upper_byte key) = formatEnvKey lib c key)
  /\ formatEnvKey lib c "servers[0].host" = formatEnvKey lib c "servers_0.host".
Proof.
  split; [|split].
  - now rewrite !formatEnvKey_unfold, normalize_path_idempotent.
  - intros Hp Hk. rewrite !formatEnvKey_unfold, normalize_path_map_upper.
    unfold strings_ToUpper.
    pose proof (isASCII_normalize_path key Hk) as Hn.
    destruct (envPrefix c) as [|x p] eqn:Ep; simpl join_prefix.
    + now rewrite isASCII_map_upper, Hn, map_upper_idempotent.
    + change (String x p +:+ "_" +:+ map_bytes upper_byte (normalize_path key))
        with (String x (p +:+ "_" +:+ map_bytes upper_byte (normalize_path key))).
      change (String x p +:+ "_" +:+ normalize_path key)
        with (String x (p +:+ "_" +:+ normalize_path key)).
      simpl in Hp. apply andb_true_iff in Hp as [Hx Hp].
      simpl isASCII. rewrite Hx, !isASCII_app, Hp, isASCII_map_upper, Hn. simpl.
      now rewrite !map_bytes_app, map_upper_idempotent.
  - rewrite !formatEnvKey_unfold. reflexivity.
Qed.

(** ** The value coercer: what decides the outcome *)

Lemma setValue_error_indep (lib : GoLib) (stringSlice : string -> list string)
    (c : confucius) (t : type) (fv fv' : denote t) (val : string) :
  (setValue lib stringSlice c t fv val).2 = (setValue lib stringSlice c t fv' val).2.
Proof.
  revert fv fv'; induction t as [ | k | | k | k | | | | elem IH | elem IH | k ];
    intros fv fv'; simpl;
    try (match goal with |- context [match ?p with Ok _ => _ | Err _ => _ end] =>
           destruct p end; reflexivity); try reflexivity.
  set (p := match fv with None => Zero elem | Some x => x end).
  set (p' := match fv' with None => Zero elem | Some x => x end).
  specialize (IH p p').
  destruct (setValue lib stringSlice c elem p val) as [x e].
  destruct (setValue lib stringSlice c elem p' val) as [x' e']. exact IH.
Qed.

(** X12: whether [setValue] fails, the error it returns and the value it
    assigns depend on the type of the destination and on the literal
    only, not on what the destination holds. *)
Theorem X12_setValue_outcome_independent
    (lib : GoLib) (stringSlice : string -> list string) (c : confucius)
    (t : type) (fv fv' : denote t) (val : string) :
  (setValue lib stringSlice c t fv val).2 = (setValue lib stringSlice c t fv' val).2
  /\ ((setValue lib stringSlice c t fv val).2 = None ->
      (setValue lib stringSlice c t fv val).1 = (setValue lib stringSlice c t fv' val).1).
Proof.
  split; [apply setValue_error_indep|].
  intros H. destruct (setValue lib stringSlice c t fv val) as [y e] eqn:E.
  simpl in H. subst e.
  now rewrite (setValue_success_indep lib stringSlice c t fv fv' val y E).
Qed.

(** X13: a destination whose type, at the end of its pointers, is a
    struct other than [time.Time] or of a kind the coercer does not
    know (interface, map, array, complex, ...) is rejected with an
    [unsupported type] error whatever the literal, by [setValue] and by
    [setDefaultValue]. *)
Theorem X13_unsupported_behind_pointers
    (lib : GoLib) (stringSlice : string -> list string) (c : confucius)
    (t : type) (fv : denote t) (val : string) :
  base_unsupported t = true ->
  (exists k, (setValue lib stringSlice c t fv val).2
             = Some (Errorf "unsupported type %s" [ArgKind k]))
  /\ (setDefaultValue lib stringSlice c t fv val).2
     = (setValue lib stringSlice c t fv val).2.
Proof.
  intros H. split.
  - revert fv; induction t as [ | k | | k | k | | | | elem IH | elem IH | k ];
      intros fv; simpl in *; try discriminate; try (eexists; reflexivity).
    destruct (IH H (match fv with None => Zero elem | Some x => x end)) as [k Hk].
    exists k. destruct (setValue lib stringSlice c elem _ val) as [x e]. exact Hk.
  - unfold setDefaultValue.
    destruct t as [ | k | | k | k | | | | elem | elem | k ];
      simpl in *; try discriminate; try reflexivity.
    destruct k; reflexivity.
Qed.

Lemma X13_unsupported_witness :
  (setValue lib_reject stringSlice_spec defaultConfucius (PtrT (PtrT StructT)) None "x").2
  = Some (Errorf "unsupported type %s" [ArgKind reflect.Struct]).
Proof.
  refine (eq_trans (proj2 (X13_unsupported_behind_pointers lib_reject stringSlice_spec
                             defaultConfucius (PtrT (PtrT StructT)) None "x" _)) _);
    reflexivity.
Defined.

(** ** The substitution, further *)

Lemma match_group_no_brace (s : string) : has_byte "}" s = false -> match_group s = None.
Proof.
  induction s as [|a s IH]; simpl; [reflexivity|].
  intros H. apply orb_false_iff in H as [Ha Hs]. rewrite Ha, (IH Hs).
  now destruct (Ascii.eqb a newline).
Qed.

Lemma FindAll_no_brace (k : nat) (s : string) :
  has_byte "}" s = false -> FindAll_from k s = [].
Proof.
  revert k; induction s as [|a s IH]; intros k; [reflexivity|].
  simpl has_byte. intros H. apply orb_false_iff in H as [Ha Hs].
  rewrite FindAll_from_cons. destruct k as [|k]; [|now apply IH].
  assert (Hm : match_at (String a s) = None).
  { unfold match_at. destruct s as [|b s']; [reflexivity|].
    destruct (Ascii.eqb a "$" && Ascii.eqb b "{"); [|reflexivity].
    apply match_group_no_brace. simpl in Hs. now apply orb_false_iff in Hs as [_ ?]. }
  rewrite Hm. now apply IH.
Qed.

Lemma FindAll_no_dollar (k : nat) (s : string) :
  has_byte "$" s = false -> FindAll_from k s = [].
Proof.
  revert k; induction s as [|a s IH]; intros k; [reflexivity|].
  simpl has_byte. intros H. apply orb_false_iff in H as [Ha Hs].
  rewrite FindAll_from_cons. destruct k as [|k]; [|now apply IH].
  rewrite match_at_not_dollar by exact Ha. now apply IH.
Qed.

(** X14: a string without a dollar, or without a closing brace, has no
    token: the substitution returns it unchanged and without error,
    whatever the environment. *)
Theorem X14_replaceEnvironments_no_token (env : gmap string string) (str : string) :
  has_byte "$" str = false \/ has_byte "}" str = false ->
  FindAllStringSubmatch str = [] /\ replaceEnvironments env str = (str, None).
Proof.
  intros H.
  assert (Hf : FindAllStringSubmatch str = []).
  { destruct H; [now apply FindAll_no_dollar|now apply FindAll_no_brace]. }
  split; [exact Hf|]. unfold replaceEnvironments. now rewrite Hf.
Qed.

Lemma X14_replaceEnvironments_witness :
  replaceEnvironments {[ "HOME" := "/root" ]} "${HOME/x" = ("${HOME/x", None).
Proof.
  apply (X14_replaceEnvironments_no_token {[ "HOME" := "/root" ]} "${HOME/x").
  right. reflexivity.
Defined.

(** ** The reader *)

(** X15: with a reader whose decoder is none of [.yaml], [.yml],
    [.json] and [.toml], [Load] on a pointer to a struct returns the
    unsupported-extension error, before any merge or profile; the error
    names the extension of the primary file name, not the decoder. *)
Theorem X15_Load_reader_unsupported_decoder
    (lib : GoLib) (stringSlice : string -> list string)
    (isZero : forall t : type, denote t -> bool) (env : gmap string string)
    (W : World) (c : confucius) (cfg : Cfg W) :
  useReader c = true ->
  isStructPtr W cfg = true ->
  str_in (readerDecoder c) [".yaml"; ".yml"; ".json"; ".toml"] = false ->
  Load lib stringSlice isZero env W c cfg
  = Failed (Errorf "unsupported file extension %s" [ArgS (filepath_Ext (filename c))]).
Proof.
  intros Hr Hs Hd.
  rewrite (Load_with_reader lib stringSlice isZero env W c cfg Hr Hs).
  unfold decodeReader. unfold str_in in *. simpl in Hd.
  repeat (apply orb_false_iff in Hd as [? Hd]).
  simpl.
  repeat match goal with H : String.eqb _ _ = false |- _ => rewrite H; clear H end.
  reflexivity.
Qed.

Lemma X15_Load_reader_unsupported_witness :
  Load lib_reject stringSlice_spec isZero_spec ∅ world_empty
    (with_reader "<host>127.0.0.1</host>" ".xml" defaultConfucius) []
  = Failed (Errorf "unsupported file extension %s" [ArgS ".yaml"]).
Proof.
  apply (X15_Load_reader_unsupported_decoder lib_reject stringSlice_spec isZero_spec ∅
           world_empty (with_reader "<host>127.0.0.1</host>" ".xml" defaultConfucius) []);
    reflexivity.
Defined.

(** ** The environment a leaf reads *)

Lemma processField_env_local (lib : GoLib) (stringSlice : string -> list string)
    (isZero : forall t : type, denote t -> bool) (env env' : gmap string string)
    (c : confucius) (f : field) :
  (useEnv c = true ->
   os_LookupEnv env (formatEnvKey lib c (path f))
   = os_LookupEnv env' (formatEnvKey lib c (path f))) ->
  processField lib stringSlice isZero env c f = processField lib stringSlice isZero env' c f.
Proof.
  intros H. unfold processField, envOverlay, setFromEnv.
  destruct (useEnv c); [|reflexivity]. now rewrite (H eq_refl).
Qed.

Lemma processFields_env_local (lib : GoLib) (stringSlice : string -> list string)
    (isZero : forall t : type, denote t -> bool) (env env' : gmap string string)
    (c : confucius) (fields : list field) (errs : fieldErrors) :
  (forall f, In f fields -> useEnv c = true ->
     os_LookupEnv env (formatEnvKey lib c (path f))
     = os_LookupEnv env' (formatEnvKey lib c (path f))) ->
  processFields lib stringSlice isZero env c fields errs
  = processFields lib stringSlice isZero env' c fields errs.
Proof.
  revert errs; induction fields as [|f rest IH]; intros errs H; [reflexivity|].
  simpl. rewrite (processField_env_local lib stringSlice isZero env env' c f)
    by (apply H; now left).
  destruct (processField lib stringSlice isZero env' c f) as [f' err].
  rewrite IH; [reflexivity|]. intros g Hg. apply H. now right.
Qed.

(** X16: the policy stage reads of the environment only the variables
    of its leaves: two environments that agree on the formatted key of
    every leaf give the same leaves and the same errors; when the
    environment is not in use, the environment does not matter at all. *)
Theorem X16_processCfg_reads_only_leaf_keys
    (lib : GoLib) (stringSlice : string -> list string)
    (isZero : forall t : type, denote t -> bool) (env env' : gmap string string)
    (c : confucius) (fields : list field) :
  (forall f, In f fields -> useEnv c = true ->
     os_LookupEnv env (formatEnvKey lib c (path f))
     = os_LookupEnv env' (formatEnvKey lib c (path f))) ->
  processCfg lib stringSlice isZero env c fields
  = processCfg lib stringSlice isZero env' c fields.
Proof.
  intros H. unfold processCfg.
  now rewrite (processFields_env_local lib stringSlice isZero env env' c fields ∅ H).
Qed.

Lemma X16_processCfg_env_witness :
  let c := with_env EmptyString defaultConfucius in
  let f := {| t := StringT; v := "info"; path := "log.level";
              required := true; setDefault := false; defaultVal := EmptyString |} in
  processCfg lib_reject stringSlice_spec isZero_spec
    {[ "LOG_LEVEL" := "debug"; "LOG_FORMAT" := "json" ]} c [f]
  = processCfg lib_reject stringSlice_spec isZero_spec {[ "LOG_LEVEL" := "debug" ]} c [f].
Proof.
  intros c f.
  apply (X16_processCfg_reads_only_leaf_keys lib_reject stringSlice_spec isZero_spec
           {[ "LOG_LEVEL" := "debug"; "LOG_FORMAT" := "json" ]} {[ "LOG_LEVEL" := "debug" ]}
           c [f]).
  intros g [<-|[]] _. vm_compute. reflexivity.
Defined.

(** ** The decoding of a file *)

Lemma filepath_Ext_no_dot (p : string) : has_byte "." p = false -> filepath_Ext p = EmptyString.
Proof.
  induction p as [|a p IH]; simpl; [reflexivity|].
  intros H. apply orb_false_iff in H as [Ha Hp]. now rewrite (IH Hp), Ha.
Qed.

(** X17: the decoder of a file is chosen by the extension of its path,
    so a file whose extension is none of [.yaml], [.yml], [.json] and
    [.toml] (a path without a dot has none) cannot be decoded:
    [decodeFile] returns the nil map and an error, which is the error of
    opening the file or, when the file opens, the unsupported-extension
    error (with the extension of the primary file name). *)
Theorem X17_decodeFile_needs_extension (W : World) (c : confucius) (file : string) :
  str_in (filepath_Ext file) [".yaml"; ".yml"; ".json"; ".toml"] = false
  \/ has_byte "." file = false ->
  (forall e, os_Open W file = Err e -> decodeFile W c file = (nil_map W, Some e))
  /\ (forall fd, os_Open W file = Ok fd ->
        decodeFile W c file
        = (nil_map W,
           Some (Errorf "unsupported file extension %s" [ArgS (filepath_Ext (filename c))])))
  /\ (decodeFile W c file).1 = nil_map W
  /\ (decodeFile W c file).2 <> None.
Proof.
  intros H.
  assert (Hd : str_in (filepath_Ext file) [".yaml"; ".yml"; ".json"; ".toml"] = false).
  { destruct H as [H|H]; [exact H|]. now rewrite (filepath_Ext_no_dot file H). }
  clear H. unfold decodeFile, decodeReader. unfold str_in in *. simpl in Hd.
  repeat (apply orb_false_iff in Hd as [? Hd]).
  destruct (os_Open W file) as [fd|e]; simpl;
    repeat match goal with H : String.eqb _ _ = false |- _ => rewrite H; clear H end;
    repeat split; try congruence; try discriminate.
Qed.

Lemma X17_decodeFile_witness :
  decodeFile world_empty defaultConfucius "testdata/abrakadabra"
  = (tt, Some (LibError "os" "no such file or directory")).
Proof.
  apply (proj1 (X17_decodeFile_needs_extension world_empty defaultConfucius
                  "testdata/abrakadabra" (or_intror eq_refl))).
  reflexivity.
Defined.
